(** * SHARAD surface-echo pipeline: a shallow embedding of [raw.py],
    [_params.py] and [utils.py], and the properties of its alignment and
    calibration stages.

    Numeric model.  A NumPy float is an extended real: not-a-number, the two
    infinities, or a finite real.  Rounding error, overflow and the sign of
    zero are abstracted away; the special values, on which the screening
    logic of the pipeline rests, are kept with their IEEE/NumPy behaviour.
    Numbers that the code uses only to build indices (the pick table) are
    exact rationals. *)

From Stdlib Require Import Reals Lra Lia ZArith QArith Qround String Ascii List.
From stdpp Require Import base list option.

Local Open Scope string_scope.

(* ===================================================================== *)
(** * NumPy floating-point values *)
(* ===================================================================== *)

Module NP.

Inductive npfloat : Type :=
| NaN
| PInf
| NInf
| Fin (r : R).

(** A one-dimensional array of floats. *)
Abbreviation ndarray := (list npfloat).

Definition is_nan (v : npfloat) : bool :=
  match v with NaN => true | _ => false end.

(** Sign of a real, as the comparison of [r] with zero. *)
Definition Rsign (r : R) : comparison :=
  match total_order_T r 0 with
  | inleft (left _) => Lt
  | inleft (right _) => Eq
  | inright _ => Gt
  end.

(** [a == b] *)
Definition feqb (a b : npfloat) : bool :=
  match a, b with
  | Fin x, Fin y => if Req_dec_T x y then true else false
  | PInf, PInf | NInf, NInf => true
  | _, _ => false
  end.

(** [a < b]; every comparison with not-a-number is false. *)
Definition fltb (a b : npfloat) : bool :=
  match a, b with
  | NaN, _ | _, NaN => false
  | _, NInf => false
  | NInf, _ => true
  | PInf, _ => false
  | Fin _, PInf => true
  | Fin x, Fin y => if Rlt_dec x y then true else false
  end.

(** [a > b] *)
Definition fgtb (a b : npfloat) : bool := fltb b a.


Definition fneg (a : npfloat) : npfloat :=
  match a with
  | NaN => NaN
  | PInf => NInf
  | NInf => PInf
  | Fin x => Fin (- x)
  end.

Definition fadd (a b : npfloat) : npfloat :=
  match a, b with
  | NaN, _ | _, NaN => NaN
  | PInf, NInf | NInf, PInf => NaN
  | PInf, _ | _, PInf => PInf
  | NInf, _ | _, NInf => NInf
  | Fin x, Fin y => Fin (x + y)
  end.

Definition fsub (a b : npfloat) : npfloat := fadd a (fneg b).

Definition signed_inf (s : comparison) (pos : npfloat) : npfloat :=
  match s with
  | Gt => pos
  | Lt => fneg pos
  | Eq => NaN
  end.

Definition fmul (a b : npfloat) : npfloat :=
  match a, b with
  | NaN, _ | _, NaN => NaN
  | Fin x, Fin y => Fin (x * y)
  | Fin x, PInf | PInf, Fin x => signed_inf (Rsign x) PInf
  | Fin x, NInf | NInf, Fin x => signed_inf (Rsign x) NInf
  | PInf, PInf | NInf, NInf => PInf
  | PInf, NInf | NInf, PInf => NInf
  end.

(** Division; a finite value over zero takes the sign of the numerator
    (the divisor's zero is taken as [+0.0]). *)
Definition fdiv (a b : npfloat) : npfloat :=
  match a, b with
  | NaN, _ | _, NaN => NaN
  | Fin x, Fin y =>
      if Req_dec_T y 0 then signed_inf (Rsign x) PInf else Fin (x / y)
  | Fin _, _ => Fin 0
  | PInf, Fin y => match Rsign y with Lt => NInf | _ => PInf end
  | NInf, Fin y => match Rsign y with Lt => PInf | _ => NInf end
  | _, _ => NaN
  end.

(** [np.log10] *)
Definition log10 (a : npfloat) : npfloat :=
  match a with
  | NaN => NaN
  | PInf => PInf
  | NInf => NaN
  | Fin x =>
      match Rsign x with
      | Gt => Fin (ln x / ln 10)
      | Eq => NInf
      | Lt => NaN
      end
  end.

(** [10 ** a] *)
Definition pow10 (a : npfloat) : npfloat :=
  match a with
  | NaN => NaN
  | PInf => PInf
  | NInf => Fin 0
  | Fin x => Fin (Rpower 10 x)
  end.

(** The larger of two values as [ndarray.max] sees them: not-a-number
    wins over everything. *)
Definition fmax (a b : npfloat) : npfloat :=
  if is_nan a then a
  else if is_nan b then b
  else if fltb a b then b else a.

(** [a.max()]; [None] stands for the [ValueError] NumPy raises on an empty
    array. *)
Definition amax (a : ndarray) : option npfloat :=
  match a with
  | [] => None
  | v :: a' => Some (fold_left fmax a' v)
  end.

(** [np.zeros(n)] *)
Definition zeros (n : nat) : ndarray := replicate n (Fin 0).

(** [a[np.where(p(a))] = v]: every entry that satisfies [p] is overwritten. *)
Definition assign_where (p : npfloat -> bool) (v : npfloat) (a : ndarray)
  : ndarray :=
  map (fun e => if p e then v else e) a.

(** [np.arange(n)] *)
Definition arange (n : nat) : ndarray :=
  map (fun i => Fin (INR i)) (seq 0 n).

(** [np.linspace(start, stop, num)] with the end point included:
    [start + i * step] where [step = (stop - start) / (num - 1)]. *)
Definition linspace (start stop : R) (num : nat) : ndarray :=
  match num with
  | O => []
  | S O => [Fin start]
  | S m => map (fun i => Fin (start + INR i * ((stop - start) / INR m))%R)
               (seq 0 num)
  end.

(** [np.round] on a finite value: to the nearest integer, ties to even. *)
Definition round (q : Q) : Z :=
  let f := Qfloor q in
  match Qcompare (q - inject_Z f) (1 # 2) with
  | Lt => f
  | Gt => (f + 1)%Z
  | Eq => if Z.even f then f else (f + 1)%Z
  end.

(** [np.round] on a float: infinities and not-a-number are kept. *)
Definition rint (a : npfloat) : npfloat :=
  match a with
  | Fin r =>
      let f := Int_part r in
      Fin (IZR match total_order_T (r - IZR f) (1 / 2) with
               | inleft (left _) => f
               | inleft (right _) => if Z.even f then f else (f + 1)%Z
               | inright _ => (f + 1)%Z
               end)
  | _ => a
  end.

(** An operand of an elementwise operation: a Python scalar or an array. *)
Inductive operand : Type :=
| Scalar (v : npfloat)
| Array (a : ndarray).

Definition operand_map (f : npfloat -> npfloat) (o : operand) : operand :=
  match o with
  | Scalar v => Scalar (f v)
  | Array a => Array (map f a)
  end.

End NP.

Import NP.
Local Open Scope list_scope.

(* ===================================================================== *)
(** * Python values: exceptions, indices, slices, strings *)
(* ===================================================================== *)

Module Py.

Inductive exn : Type :=
| IOError
| ValueError
| IndexError
| KeyError
| AttributeError
| ExternalError.

(** The outcome of evaluating an expression: a value or a raised exception. *)
Inductive result (A : Type) : Type :=
| Ok (a : A)
| Raise (e : exn).
Arguments Ok {A} a.
Arguments Raise {A} e.

#[global] Instance result_ret : MRet result := fun A a => Ok a.
#[global] Instance result_bind : MBind result := fun A B f m =>
  match m with
  | Ok a => f a
  | Raise e => Raise e
  end.

(** [try: v = e  except: v = d] *)
Definition try_except {A} (e : result A) (d : A) : A :=
  match e with
  | Ok a => a
  | Raise _ => d
  end.

Definition from_option {A} (e : exn) (o : option A) : result A :=
  match o with
  | Some a => Ok a
  | None => Raise e
  end.

(** A float used as an index is truncated to an integer, as the NumPy
    releases that accept float indices do. *)
Definition as_index (q : Q) : Z := Z.quot (Qnum q) (Z.pos (Qden q)).

(** An integer index on an axis of length [n]: negative indices count from
    the end, anything outside [-n, n) raises [IndexError]. *)
Definition index_axis (n : nat) (i : Z) : result nat :=
  if (0 <=? i)%Z && (i <? Z.of_nat n)%Z then Ok (Z.to_nat i)
  else if (- Z.of_nat n <=? i)%Z && (i <? 0)%Z then Ok (Z.to_nat (i + Z.of_nat n))
  else Raise IndexError.

(** One bound of a slice [a:b] on an axis of length [n]: a negative bound
    counts from the end, and the result is clamped to [0, n]; a slice never
    raises. *)
Definition slice_bound (n : nat) (i : Z) : nat :=
  if (i <? 0)%Z then Z.to_nat (Z.max (i + Z.of_nat n) 0)
  else Z.to_nat (Z.min i (Z.of_nat n)).

(** The positions selected by [start:stop]. *)
Definition slice (n : nat) (start stop : Z) : list nat :=
  let a := slice_bound n start in
  let b := slice_bound n stop in
  seq a (b - a).

(** [enumerate(l)] *)
Definition enumerate {A} (l : list A) : list (nat * A) :=
  zip (seq 0 (length l)) l.

(** [s.zfill(width)]: zeros are inserted after a leading sign. *)
Definition zfill (width : nat) (s : string) : string :=
  let pad := string_of_list_ascii (repeat "0"%char (width - String.length s)) in
  match s with
  | String c s' =>
      if Ascii.eqb c "+" || Ascii.eqb c "-"
      then String c (pad ++ s')%string
      else (pad ++ s)%string
  | EmptyString => pad
  end.

(** [string.replace(s, old, new)] for a non-empty [old]: occurrences are
    replaced from the left and do not overlap.  [skip] counts the characters
    of a match that are still to be dropped. *)
Fixpoint replace_from (old new : string) (skip : nat) (s : string) : string :=
  match s with
  | EmptyString => EmptyString
  | String c s' =>
      match skip with
      | S k => replace_from old new k s'
      | O =>
          if String.prefix old s
          then (new ++ replace_from old new (String.length old - 1) s')%string
          else String c (replace_from old new 0 s')
      end
  end.

Definition replace (s old new : string) : string := replace_from old new 0 s.

End Py.

Import Py.

(* ===================================================================== *)
(** * pandas tables *)
(* ===================================================================== *)

Module Pandas.

(** A [DataFrame] of float columns on the default index [0 .. df_len-1]. *)
Record DataFrame : Type := mkDF {
  df_len : nat;
  df_cols : list (string * ndarray)
}.

Fixpoint assoc (k : string) (l : list (string * ndarray)) : option ndarray :=
  match l with
  | [] => None
  | (k', v) :: l' => if String.eqb k k' then Some v else assoc k l'
  end.

(** [df.name] / [df['name']] *)
Definition column (df : DataFrame) (name : string) : result ndarray :=
  from_option AttributeError (assoc name (df_cols df)).

(** [pd.DataFrame(dict)]: the arrays must all have one length. *)
Definition of_columns (cols : list (string * ndarray)) : result DataFrame :=
  match cols with
  | [] => Ok (mkDF 0 [])
  | (_, c) :: _ =>
      if forallb (fun kc => Nat.eqb (length (snd kc)) (length c)) cols
      then Ok (mkDF (length c) cols)
      else Raise ValueError
  end.

Fixpoint put (k : string) (v : ndarray) (l : list (string * ndarray))
  : list (string * ndarray) :=
  match l with
  | [] => [(k, v)]
  | (k', v') :: l' =>
      if String.eqb k k' then (k, v) :: l' else (k', v') :: put k v l'
  end.

(** [df[name] = values]: the array must have the length of the index. *)
Definition setitem (df : DataFrame) (name : string) (values : ndarray)
  : result DataFrame :=
  if Nat.eqb (length values) (df_len df)
  then Ok (mkDF (df_len df) (put name values (df_cols df)))
  else Raise ValueError.

(** The position of a float label on the default integer index. *)
Definition ix_row (n : nat) (label : npfloat) : option nat :=
  find (fun k => feqb label (Fin (INR k))) (seq 0 n).

(** [np.array(df.ix[labels, name])]: a label that is not on the index
    yields a missing value. *)
Definition ix (df : DataFrame) (labels : ndarray) (name : string)
  : result ndarray :=
  c ← column df name;
  mret (map (fun lab =>
               match ix_row (df_len df) lab with
               | Some k => default NaN (c !! k)
               | None => NaN
               end) labels).

End Pandas.

Import Pandas.

(* ===================================================================== *)
(** * The process state: array objects, files, uninitialised memory *)
(* ===================================================================== *)

Module State.

(** A line of the pick file [RPB_<orbit>_1st_return.txt]: five numeric
    columns. *)
Record pik_line : Type := mkLine {
  col0 : Q;
  col1 : Q;
  col2 : Q;
  col3 : Q;
  col4 : Q
}.

Inductive file_content : Type :=
| CsvTable (df : DataFrame)
| PngFigure.

(** Array objects are named by their position in the heap. *)
Definition ref := nat.

Record world : Type := mkWorld {
  (** the NumPy arrays that are shared between caller and callee *)
  w_heap : list ndarray;
  (** what the cells of a block handed out by [np.empty] hold *)
  w_uninit : nat -> npfloat;
  (** [os.getcwd()] *)
  w_cwd : string;
  (** the waveform file of an orbit, as its little-endian [f4] values *)
  w_rpb : string -> option ndarray;
  (** the pick file of an orbit, after the two header lines *)
  w_pik : string -> option (list pik_line);
  (** the telemetry file of an orbit, as the table [pd.read_table] parses *)
  w_aux : string -> option DataFrame;
  (** the files written so far, oldest first *)
  w_files : list (string * file_content)
}.

Definition with_heap (h : list ndarray) (w : world) : world :=
  mkWorld h (w_uninit w) (w_cwd w) (w_rpb w) (w_pik w) (w_aux w) (w_files w).

Definition with_files (f : list (string * file_content)) (w : world) : world :=
  mkWorld (w_heap w) (w_uninit w) (w_cwd w) (w_rpb w) (w_pik w) (w_aux w) f.

(** A computation that reads and changes the process state and either
    returns or raises; the state at the raise is kept. *)
Definition M (A : Type) : Type := world -> world * result A.

#[global] Instance M_ret : MRet M := fun A a w => (w, Ok a).
#[global] Instance M_bind : MBind M := fun A B f m w =>
  match m w with
  | (w', Ok a) => f a w'
  | (w', Raise e) => (w', Raise e)
  end.

Definition lift {A} (r : result A) : M A := fun w => (w, r).

Definition ask {A} (f : world -> A) : M A := fun w => (w, Ok (f w)).

(** A new array object holding [a]. *)
Definition alloc (a : ndarray) : M ref := fun w =>
  (with_heap (w_heap w ++ [a]) w, Ok (length (w_heap w))).

Definition load (l : ref) : M ndarray := fun w =>
  (w, from_option KeyError (w_heap w !! l)).

Definition store (l : ref) (a : ndarray) : M unit := fun w =>
  (with_heap (<[l := a]> (w_heap w)) w, Ok tt).

(** [np.empty(n)]: a new array whose cells are whatever the memory held. *)
Definition np_empty (n : nat) : M ref := fun w =>
  alloc (map (w_uninit w) (seq 0 n)) w.

Definition write_file (path : string) (c : file_content) : M unit := fun w =>
  (with_files (w_files w ++ [(path, c)]) w, Ok tt).

End State.

Import State.

(* ===================================================================== *)
(** * [_params.py] *)
(* ===================================================================== *)

Module Params.

(** central frequency [Hz] *)
Definition frq : R := 20000000.
(** bandwidth [Hz] *)
Definition bdw : R := 10000000.

Definition data_path : string := "../../../targ/xtra/SHARAD/".
Definition rpb_path : string := data_path ++ "rpb/".
Definition rsr_path : string := data_path ++ "rsr/".
Definition aux_path : string := data_path ++ "aux/".
Definition geo_path : string := data_path ++ "geo/".
Definition srf_path : string := data_path ++ "srf/".

(** Power [dB] *)
Definition abs_calib : npfloat := Fin (-14243 / 100).

(** [scipy.constants.c] *)
Definition ct_c : R := 299792458.

End Params.

(* ===================================================================== *)
(** * [raw.py]: the format readers *)
(* ===================================================================== *)

Module Raw.

(** The waveform array after [reshape] and [swapaxes]: [shape0] delay
    samples by [shape1] frames, a view on the flat buffer of the file. *)
Record matrix : Type := mkMatrix {
  shape0 : nat;
  shape1 : nat;
  flat : ndarray
}.

(** [rpb[r, c]] *)
Definition cell (m : matrix) (r c : nat) : npfloat :=
  default NaN (flat m !! (c * shape0 m + r)).

Definition rows : nat := 3600.

Definition read_rpb (orbit : string) : M matrix :=
  a ← (fun w => (w, from_option IOError (w_rpb w orbit)));
  let columns := length a / rows in
  if Nat.eqb (length a) (columns * rows)
  then mret (mkMatrix rows columns a)
  else lift (Raise ValueError).

(** A row of the table [read_pik] returns. *)
Record pick : Type := mkPick {
  orbit : Q;
  frame : Q;
  x : Q;
  y : Q;
  delay_time : Q;
  delay_pixel : Q
}.

(** [np.genfromtxt] gives a two-dimensional array only for a file of two
    data lines or more; for one line or none its result has one dimension
    and [a[:,4]] raises.  The quotients and the product of the two delay
    columns are taken exactly. *)
Definition read_pik (orbit : string) : M (list pick) :=
  a ← (fun w => (w, from_option IOError (w_pik w orbit)));
  if Nat.ltb (length a) 2 then lift (Raise IndexError) else
  let w := List.filter (fun l => negb (Qle_bool (col4 l) (inject_Z 0))) a in
  mret (map (fun l =>
               mkPick (col0 l) (col1 l) (col2 l) (col3 l)
                      (col4 l / inject_Z 10)
                      (col4 l / inject_Z 10 / (75 # 2) * inject_Z 1000)) w).

Definition read_aux (orbit : string) : M DataFrame :=
  fun w => (w, from_option IOError (w_aux w orbit)).

End Raw.

Import Raw.

(* ===================================================================== *)
(** * [utils.py] *)
(* ===================================================================== *)

(** The collaborators of the pipeline that live outside the repository:
    SciPy's spline fit and evaluation, the planetary ellipsoid, the
    statistical estimator and its plot, and the two names [stat] and [inv]
    that [inline_rsr] takes from its module environment. *)
Class Collaborators : Type := {
  tck : Type;
  (** [splrep(x, y, s=0)] *)
  splrep : ndarray -> ndarray -> result tck;
  (** [splev(x, tck, der=0)] at one abscissa *)
  splev1 : tck -> npfloat -> npfloat;
  (** [ellipsoid.lonlat2rad(lon, lat, radius)] at one point *)
  lonlat2rad1 : npfloat -> npfloat -> npfloat -> npfloat;
  (** [mars.radius['val']] *)
  mars_radius : npfloat;
  (** [rsr.utils.inline_estim(amp, frq=, winsize=, sampling=, verbose=True)] *)
  inline_estim : ndarray -> R -> npfloat -> npfloat -> result DataFrame;
  (** [rsr.utils.plot_inline(b, frq=, title=)] *)
  plot_inline : DataFrame -> R -> string -> result unit;
  stat : string;
  inv : string
}.

Module Utils.

Section WithCollaborators.

Context `{Collaborators}.

(** Elementwise operation on two one-dimensional arrays with NumPy's
    broadcasting: equal lengths, or one of them of length one. *)
Definition broadcast (f : npfloat -> npfloat -> npfloat) (a b : ndarray)
  : result ndarray :=
  if Nat.eqb (length a) (length b) then Ok (zip_with f a b)
  else match a, b with
       | [u], _ => Ok (map (f u) b)
       | _, [v] => Ok (map (fun u => f u v) a)
       | _, _ => Raise ValueError
       end.

(** [a + o] for an array [a]. *)
Definition array_add (a : ndarray) (o : operand) : result ndarray :=
  match o with
  | Scalar v => Ok (map (fun u => fadd u v) a)
  | Array b => broadcast fadd a b
  end.

(** [0 if rng is False else 20*np.log10(8*np.pi*rng)]; [None] stands for
    [False]. *)
Definition geometric_loss (rng : option operand) : operand :=
  match rng with
  | None => Scalar (Fin 0)
  | Some rng =>
      operand_map (fun r => fmul (Fin 20) (log10 (fmul (Fin (8 * PI)) r))) rng
  end.

(** [calibration(val, wl, rng, abs_calib)]; [rng = None] stands for the
    default [False].  [val] is the caller's array object. *)
Definition calibration (val : ref) (wl : R) (rng : option operand)
    (abs_calib : npfloat) : M ndarray :=
  a ← load val;
  store val (assign_where (fun v => feqb v (Fin 0)) NaN a);;
  a ← load val;
  let val := map (fun v => fmul (Fin 10) (log10 v)) a in
  out ← lift (array_add (map (fun v => fadd v abs_calib) val)
                        (geometric_loss rng));
  mret out.

(** [rpb[zi-2:zi+2, val].max()] *)
Definition window_max (rpb : matrix) (zi : Z) (val : Q) : result npfloat :=
  c ← index_axis (shape1 rpb) (as_index val);
  from_option ValueError
    (amax (map (fun r => cell rpb r c) (slice (shape0 rpb) (zi - 2) (zi + 2)))).

(** The body of the loop of [get_pik]: the value stored in [echo[i]],
    not-a-number when the lookup raises. *)
Definition echo_value (rpb : matrix) (z : list Z) (i : nat) (val : Q)
  : npfloat :=
  try_except (zi ← from_option KeyError (z !! i); window_max rpb zi val) NaN.

(** The loop of [get_pik] over [enumerate(x)]. *)
Fixpoint echo_loop (rpb : matrix) (z : list Z) (ix : list (nat * Q))
    (echo : ndarray) : ndarray :=
  match ix with
  | [] => echo
  | (i, val) :: ix' =>
      echo_loop rpb z ix' (<[i := echo_value rpb z i val]> echo)
  end.

(** [out[x] = values] for a list of indices [x]: every index is checked,
    then the values are written in order, so that the last write to an
    index stays. *)
Definition setitem_list (out : ndarray) (x : list Q) (values : ndarray)
  : result ndarray :=
  idx ← mapM (fun q => index_axis (length out) (as_index q)) x;
  if Nat.eqb (length values) (length idx)
  then Ok (fold_left (fun o iv => <[fst iv := snd iv]> o) (zip idx values) out)
  else Raise ValueError.

(** [z = np.round(pik.delay_pixel)-1] *)
Definition pik_z (pik : list pick) : list Z :=
  map (fun p => (NP.round (delay_pixel p) - 1)%Z) pik.

(** [x = (pik.frame-1).values.tolist()] *)
Definition pik_x (pik : list pick) : list Q :=
  map (fun p => (frame p - inject_Z 1)%Q) pik.

Definition get_pik (orbit : string) : M ref :=
  pik ← read_pik orbit;
  rpb ← read_rpb orbit;
  let z := pik_z pik in
  let x := pik_x pik in
  let echo := echo_loop rpb z (enumerate x) (zeros (length x)) in
  out ← np_empty (shape1 rpb);
  a ← load out;
  a' ← lift (setitem_list a x echo);
  store out a';;
  mret out.

(** [splev(xnew, splrep(x, y, s=0), der=0)] *)
Definition resample (x y xnew : ndarray) : result ndarray :=
  t ← splrep x y;
  mret (map (splev1 t) xnew).

Definition get_aux (orbit : string) : M DataFrame :=
  aux ← read_aux orbit;
  rpb ← read_rpb orbit;
  let xnew := arange (shape1 rpb) in
  utc ← lift (column aux "UTC");
  let x := linspace 0 (INR (shape1 rpb) - 1) (length utc) in
  let channel name := lift (y ← column aux name; resample x y xnew) in
  lon ← channel "lon";
  lat ← channel "lat";
  radius ← channel "radius";
  vtan ← channel "vtan";
  vrad ← channel "vrad";
  sza ← channel "SZA";
  pitch ← channel "pitch";
  yaw ← channel "yaw";
  roll ← channel "roll";
  mag ← channel "Mag_field";
  HGAout ← channel "HGAout";
  HGAin ← channel "HGAin";
  sun_dist ← channel "Sun_dist";
  let rng :=
    zip_with fsub
      (map (fun r => fmul r (Fin 1000)) radius)
      (zip_with (fun lo la => lonlat2rad1 lo la mars_radius) lon lat) in
  (* pandas orders the columns of a table built from a dict by key *)
  lift (of_columns
          [("HGAin", HGAin); ("HGAout", HGAout); ("lat", lat); ("lon", lon);
           ("mag", mag); ("pitch", pitch); ("radius", radius); ("rng", rng);
           ("roll", roll); ("sun_dist", sun_dist); ("sza", sza);
           ("vrad", vrad); ("vtan", vtan); ("yaw", yaw)]).

(** Lines 160-162 of [get_srf]: the two screening assignments and the
    conversion to linear amplitude. *)
Definition screen_amplitude (pdb : ndarray) : ndarray :=
  let pdb := assign_where (fun v => fltb v (Fin (-200))) NaN pdb in
  let pdb := assign_where (fun v => fgtb v (Fin 10)) NaN pdb in
  map (fun v => pow10 (fdiv v (Fin 20))) pdb.

Definition srf_file (orbit : string) : string :=
  (Params.srf_path ++ zfill 7 orbit ++ ".srf.txt")%string.

Definition get_srf (orbit : string) (save : bool) : M DataFrame :=
  aux ← get_aux orbit;
  pik ← get_pik orbit;
  rng ← lift (column aux "rng");
  pdb ← calibration pik (Params.ct_c / Params.frq) (Some (Array rng))
          Params.abs_calib;
  let amp := screen_amplitude pdb in
  aux ← lift (setitem aux "amp" amp);
  (if save then write_file (srf_file orbit) (CsvTable aux) else mret tt);;
  mret aux.

Definition rsr_file (cwd orbit : string) : string :=
  (replace cwd "code" "targ" ++ "/rsr/" ++ zfill 7 orbit ++ "." ++ stat
     ++ "." ++ inv)%string.

Definition inline_rsr (orbit : string) (winsize sampling : npfloat)
    (save : bool) : M DataFrame :=
  srf ← get_srf orbit true;
  amp ← lift (column srf "amp");
  b ← lift (inline_estim amp Params.frq winsize sampling);
  b_xo ← lift (column b "xo");
  let xo := map rint b_xo in
  let attach name (b : DataFrame) : M DataFrame :=
    lift (v ← ix srf xo name; setitem b name v) in
  b ← attach "lat" b;
  b ← attach "lon" b;
  b ← attach "roll" b;
  b ← attach "rng" b;
  b ← attach "sza" b;
  (if save then
     cwd ← ask w_cwd;
     let save_fil := rsr_file cwd orbit in
     let title := zfill 7 orbit in
     write_file (save_fil ++ ".txt")%string (CsvTable b);;
     lift (plot_inline b Params.frq title);;
     write_file (save_fil ++ ".png")%string PngFigure
   else mret tt);;
  mret b.

End WithCollaborators.

End Utils.

Import Utils.

(* ===================================================================== *)
(** * Vocabulary of the properties *)
(* ===================================================================== *)

Module Spec.

(** A computation that leaves the process state as it found it. *)
Definition reads_only {A} (m : M A) : Prop := forall w, fst (m w) = w.

(** A computation that only adds to the files written so far. *)
Definition appends_files {A} (m : M A) : Prop :=
  forall w, exists extra, w_files (fst (m w)) = w_files w ++ extra.

(** The writes of an indexed assignment, in order. *)
Definition scatter (out : ndarray) (writes : list (nat * npfloat)) : ndarray :=
  fold_left (fun o iv => <[fst iv := snd iv]> o) writes out.

(** The raw echo sequence [get_pik] computes from the pick table. *)
Definition pik_echo (rpb : matrix) (pik : list pick) : ndarray :=
  echo_loop rpb (pik_z pik) (enumerate (pik_x pik)) (zeros (length (pik_x pik))).

(** The block [np.empty(n)] hands out. *)
Definition fresh_block (w : world) (n : nat) : ndarray :=
  map (w_uninit w) (seq 0 n).

(** The array [get_pik] builds from a block [blk], a waveform matrix and a
    pick table. *)
Definition extracted (blk : ndarray) (rpb : matrix) (pik : list pick)
  : result ndarray :=
  setitem_list blk (pik_x pik) (pik_echo rpb pik).

(** The column a pick is written to: its frame number less one, as an
    index on the along-track axis of length [n]. *)
Definition pick_col (n : nat) (p : pick) : result nat :=
  index_axis n (as_index (frame p - inject_Z 1)%Q).

(** The target delay sample of a pick. *)
Definition pick_z (p : pick) : Z := (NP.round (delay_pixel p) - 1)%Z.

(** The echo value of a pick: the window maximum, or not-a-number when
    the lookup raises. *)
Definition pick_val (rpb : matrix) (p : pick) : npfloat :=
  try_except (window_max rpb (pick_z p) (frame p - inject_Z 1)%Q) NaN.

(** The samples of column [c] in the rows [rows]. *)
Definition samples (rpb : matrix) (c : nat) (rows : list nat) : ndarray :=
  map (fun r => cell rpb r c) rows.

(** The array after [val[np.where(val == 0)] = np.nan]. *)
Definition zero_to_nan (a : ndarray) : ndarray :=
  assign_where (fun v => feqb v (Fin 0)) NaN a.

(** The decibel value of one raw entry before the geometric term is
    added. *)
Definition decibel (abs_calib v : npfloat) : npfloat :=
  fadd (fmul (Fin 10) (log10 v)) abs_calib.

(** The two-way geometric loss of one range value. *)
Definition range_loss (r : npfloat) : npfloat :=
  fmul (Fin 20) (log10 (fmul (Fin (8 * PI)) r)).

(** The calibrated decibel sequence [get_srf] obtains from the raw echo
    sequence [a] and the range channel [rng]. *)
Definition calibrated (a rng : ndarray) : ndarray :=
  zip_with fadd (map (decibel Params.abs_calib) (zero_to_nan a))
                (map range_loss rng).

(** A calibrated value as it stands after the two screening assignments
    of [get_srf]. *)
Definition screened (v : npfloat) : npfloat :=
  let v1 := if fltb v (Fin (-200)) then NaN else v in
  if fgtb v1 (Fin 10) then NaN else v1.

(** Where the aligned track of an orbit is written. *)
Definition srf_entry (orbit : string) (t : DataFrame)
  : string * file_content :=
  (srf_file orbit, CsvTable t).

Section WithCollaborators.

Context `{Collaborators}.

(** The two files the secondary entry point writes for its own product. *)
Definition rsr_entries (cwd orbit : string) (b : DataFrame)
  : list (string * file_content) :=
  [ ((rsr_file cwd orbit ++ ".txt")%string, CsvTable b);
    ((rsr_file cwd orbit ++ ".png")%string, PngFigure) ].

(** What follows the call of [get_srf] in [inline_rsr]. *)
Definition after_srf (orbit : string) (winsize sampling : npfloat)
    (save : bool) (srf : DataFrame) : M DataFrame :=
  amp ← lift (column srf "amp");
  b ← lift (inline_estim amp Params.frq winsize sampling);
  b_xo ← lift (column b "xo");
  let xo := map rint b_xo in
  let attach name (b : DataFrame) : M DataFrame :=
    lift (v ← ix srf xo name; setitem b name v) in
  b ← attach "lat" b;
  b ← attach "lon" b;
  b ← attach "roll" b;
  b ← attach "rng" b;
  b ← attach "sza" b;
  (if save then
     cwd ← ask w_cwd;
     let save_fil := rsr_file cwd orbit in
     let title := zfill 7 orbit in
     write_file (save_fil ++ ".txt")%string (CsvTable b);;
     lift (plot_inline b Params.frq title);;
     write_file (save_fil ++ ".png")%string PngFigure
   else mret tt);;
  mret b.

End WithCollaborators.

End Spec.

Import Spec.

(* ===================================================================== *)
(** * A small orbit used in the examples *)
(* ===================================================================== *)

Module Fixture.

(** Stand-ins for the collaborators.  Every telemetry channel of the
    example orbit is constant, and the cubic spline through constant data
    is that constant, so the fit keeps the first ordinate and evaluates to
    it; like [splrep] with [k=3], it refuses fewer than four samples.  The
    body is a sphere, and the estimator reports one window at position 0. *)
#[export] Instance collaborators : Collaborators := {|
  tck := npfloat;
  splrep := fun x y =>
    if (4 <=? length y)%nat && Nat.eqb (length x) (length y)
    then Ok (default NaN (head y))
    else Raise ValueError;
  splev1 := fun t _ => t;
  lonlat2rad1 := fun _ _ r => r;
  mars_radius := Fin 3400000;
  inline_estim := fun _ _ _ _ => of_columns [("xo", [Fin 0])];
  plot_inline := fun _ _ _ => Ok tt;
  stat := "hk";
  inv := "spm"
|}.

Definition orbit_id : string := "887601".

(** Two frames of 3600 delay samples, every sample equal to one. *)
Definition rpb_values : ndarray := replicate (2 * rows) (Fin 1).

(** One pick, on frame 1, whose delay rounds to sample 3600, and one line
    without a positive delay, which [read_pik] drops. *)
Definition pik_lines : list pik_line :=
  [ mkLine (inject_Z 887601) (inject_Z 1) (inject_Z 0) (inject_Z 0)
           (inject_Z 1350);
    mkLine (inject_Z 887601) (inject_Z 2) (inject_Z 0) (inject_Z 0)
           (inject_Z 0) ].

(** Four telemetry epochs; the orbital radius is 3700 km. *)
Definition aux_table : DataFrame :=
  mkDF 4
    (("radius", replicate 4 (Fin 3700)) ::
     map (fun name => (name, replicate 4 (Fin 0)))
         ["UTC"; "lat"; "lon"; "vtan"; "vrad"; "posx"; "posy"; "posz";
          "velx"; "vely"; "velz"; "roll"; "pitch"; "yaw"; "HGAin"; "HGAout";
          "SAPXin"; "SAPXout"; "SAMXin"; "SAMXout"; "SZA"; "Mag_field";
          "Sun_dist"]).

Definition on_orbit {A} (a : A) (orbit : string) : option A :=
  if String.eqb orbit orbit_id then Some a else None.

(** The process before the run; [garbage] is what uninitialised memory
    holds. *)
Definition world0 (garbage : npfloat) : world := {|
  w_heap := [];
  w_uninit := fun _ => garbage;
  w_cwd := "/home/user/code/sharad";
  w_rpb := on_orbit rpb_values;
  w_pik := on_orbit pik_lines;
  w_aux := on_orbit aux_table;
  w_files := []
|}.

(** What the readers and the resampler return for the orbit. *)
Definition waveform : matrix := mkMatrix rows 2 rpb_values.

Definition pick0 : pick :=
  mkPick (inject_Z 887601) (inject_Z 1) (inject_Z 0) (inject_Z 0)
         (inject_Z 1350 / inject_Z 10)
         (inject_Z 1350 / inject_Z 10 / (75 # 2) * inject_Z 1000).

(** The range of the orbit: 300 km. *)
Definition range0 : npfloat := Fin (3700 * 1000 + - (3400000)).

Definition resampled : DataFrame :=
  mkDF 2
    [("HGAin", [Fin 0; Fin 0]); ("HGAout", [Fin 0; Fin 0]);
     ("lat", [Fin 0; Fin 0]); ("lon", [Fin 0; Fin 0]);
     ("mag", [Fin 0; Fin 0]); ("pitch", [Fin 0; Fin 0]);
     ("radius", [Fin 3700; Fin 3700]); ("rng", [range0; range0]);
     ("roll", [Fin 0; Fin 0]); ("sun_dist", [Fin 0; Fin 0]);
     ("sza", [Fin 0; Fin 0]); ("vrad", [Fin 0; Fin 0]);
     ("vtan", [Fin 0; Fin 0]); ("yaw", [Fin 0; Fin 0])].

(** The raw echo sequence of the orbit: frame 1 is picked, frame 2 is
    not and keeps what the memory held. *)
Definition echo (garbage : npfloat) : ndarray := [Fin 1; garbage].

(** The process after [get_pik]. *)
Definition world_pik (garbage : npfloat) : world :=
  with_heap [echo garbage] (world0 garbage).

(** The aligned track of the orbit. *)
Definition track (garbage : npfloat) : DataFrame :=
  mkDF 2
    (put "amp" (screen_amplitude (calibrated (echo garbage) [range0; range0]))
         (df_cols resampled)).

(** The process after [get_srf]. *)
Definition world_srf (garbage : npfloat) (save : bool) : world :=
  let w3 := with_heap [zero_to_nan (echo garbage)] (world_pik garbage) in
  if save
  then with_files [srf_entry orbit_id (track garbage)] w3
  else w3.

(** A process that holds one array, with a zero entry. *)
Definition world_zero : world := with_heap [[Fin 0; Fin 1]] (world0 NaN).

(** A process that holds the raw value of the reference scenario. *)
Definition world_one : world := with_heap [[Fin 1]] (world0 NaN).

End Fixture.

(* ===================================================================== *)
(** * The channels of the Telemetry Resampler *)
(* ===================================================================== *)

Module Channels.

(** The channels [get_aux] resamples: the name of the column in the table
    it returns, and the name of the column of the telemetry file the
    values come from. *)
Definition channels : list (string * string) :=
  [("lon", "lon"); ("lat", "lat"); ("radius", "radius"); ("vtan", "vtan");
   ("vrad", "vrad"); ("sza", "SZA"); ("pitch", "pitch"); ("yaw", "yaw");
   ("roll", "roll"); ("mag", "Mag_field"); ("HGAout", "HGAout");
   ("HGAin", "HGAin"); ("sun_dist", "Sun_dist")].

End Channels.

Import Channels.

(* ===================================================================== *)
(** * The example orbit with a pick on every frame *)
(* ===================================================================== *)

Module Covered.

Import Fixture.

(** A pick on frame 1 and a pick on frame 0, which is taken from the end
    of the along-track axis: both frames of the example orbit are
    picked. *)
Definition pik_lines : list pik_line :=
  [ mkLine (inject_Z 887601) (inject_Z 1) (inject_Z 0) (inject_Z 0)
           (inject_Z 1350);
    mkLine (inject_Z 887601) (inject_Z 0) (inject_Z 0) (inject_Z 0)
           (inject_Z 1350) ].

Definition pick_wrap : pick :=
  mkPick (inject_Z 887601) (inject_Z 0) (inject_Z 0) (inject_Z 0)
         (inject_Z 1350 / inject_Z 10)
         (inject_Z 1350 / inject_Z 10 / (75 # 2) * inject_Z 1000).

Definition world_full (garbage : npfloat) : world := {|
  w_heap := [];
  w_uninit := fun _ => garbage;
  w_cwd := "/home/user/code/sharad";
  w_rpb := on_orbit rpb_values;
  w_pik := on_orbit pik_lines;
  w_aux := on_orbit aux_table;
  w_files := []
|}.

(** The process after [get_pik]: both cells were written. *)
Definition world_full_pik (garbage : npfloat) : world :=
  with_heap [[Fin 1; Fin 1]] (world_full garbage).

End Covered.
(* ===================================================================== *)
(** * Facts about float values *)
(* ===================================================================== *)

Lemma Rsign_pos (r : R) : (0 < r)%R -> Rsign r = Gt.
Proof.
  intros Hr. unfold Rsign.
  destruct (total_order_T r 0) as [[Hlt | Heq] | Hgt]; [lra | lra | reflexivity].
Qed.

Lemma feqb_zero_true (v : npfloat) : feqb v (Fin 0) = true <-> v = Fin 0.
Proof.
  destruct v as [| | | r]; simpl; try (split; discriminate).
  destruct (Req_dec_T r 0) as [-> | Hne]; split; intros E;
    try reflexivity; try discriminate.
  inversion E. contradiction.
Qed.

Lemma log10_one : log10 (Fin 1) = Fin 0.
Proof.
  simpl. rewrite Rsign_pos by lra. rewrite ln_1. f_equal. unfold Rdiv. lra.
Qed.

Lemma ln10_pos : (0 < ln 10)%R.
Proof. rewrite <- ln_1. apply ln_increasing; lra. Qed.



Lemma fmax_not_nan (a b : npfloat) : a <> NaN -> b <> NaN -> fmax a b <> NaN.
Proof.
  intros Ha Hb. unfold fmax.
  destruct a; destruct b; simpl; try congruence;
    repeat match goal with |- context [if ?c then _ else _] => destruct c end;
    congruence.
Qed.

Lemma fold_fmax_not_nan (l : ndarray) (v : npfloat) :
  v <> NaN -> Forall (fun u => u <> NaN) l -> fold_left fmax l v <> NaN.
Proof.
  revert v. induction l as [| u l IH]; intros v Hv Hl; simpl; [exact Hv |].
  inversion Hl; subst. apply IH; [apply fmax_not_nan |]; assumption.
Qed.

(* ===================================================================== *)
(** * Running computations *)
(* ===================================================================== *)

Lemma bind_ok {A B} (m : M A) (f : A -> M B) (w w1 : world) (a : A) :
  m w = (w1, Ok a) -> (m ≫= f) w = f a w1.
Proof. intros E. unfold mbind, M_bind. rewrite E. reflexivity. Qed.

Lemma bind_raise {A B} (m : M A) (f : A -> M B) (w w1 : world) (e : exn) :
  m w = (w1, Raise e) -> (m ≫= f) w = (w1, Raise e).
Proof. intros E. unfold mbind, M_bind. rewrite E. reflexivity. Qed.

Lemma bind_inv {A B} (m : M A) (f : A -> M B) (w w' : world) (b : B) :
  (m ≫= f) w = (w', Ok b) ->
  exists a w1, m w = (w1, Ok a) /\ f a w1 = (w', Ok b).
Proof.
  unfold mbind, M_bind. destruct (m w) as [w1 [a | e]] eqn:E; intros Hf.
  - exists a, w1. split; [reflexivity | exact Hf].
  - discriminate.
Qed.

Lemma lift_inv {A} (r : result A) (w w' : world) (a : A) :
  lift r w = (w', Ok a) -> w' = w /\ r = Ok a.
Proof. unfold lift. intros E. inversion E. split; reflexivity. Qed.

Lemma rbind_inv {A B} (m : result A) (f : A -> result B) (b : B) :
  m ≫= f = Ok b -> exists a, m = Ok a /\ f a = Ok b.
Proof.
  unfold mbind, result_bind. destruct m as [a | e]; intros E.
  - exists a. split; [reflexivity | exact E].
  - discriminate.
Qed.

Lemma reads_only_lift {A} (r : result A) : reads_only (lift r).
Proof. intros w. reflexivity. Qed.

Lemma reads_only_ret {A} (a : A) : reads_only (mret a : M A).
Proof. intros w. reflexivity. Qed.

Lemma reads_only_bind {A B} (m : M A) (f : A -> M B) :
  reads_only m -> (forall a, reads_only (f a)) -> reads_only (m ≫= f).
Proof.
  intros Hm Hf w. unfold mbind, M_bind.
  specialize (Hm w). destruct (m w) as [w1 [a | e]]; simpl in Hm; subst w1.
  - apply Hf.
  - reflexivity.
Qed.

Lemma read_rpb_reads (orbit : string) : reads_only (read_rpb orbit).
Proof.
  intros w. unfold read_rpb, mbind, M_bind.
  destruct (w_rpb w orbit) as [a |]; simpl; [| reflexivity].
  destruct (Nat.eqb _ _); reflexivity.
Qed.

Lemma read_pik_reads (orbit : string) : reads_only (read_pik orbit).
Proof.
  intros w. unfold read_pik, mbind, M_bind.
  destruct (w_pik w orbit) as [a |]; [| reflexivity]. cbn [from_option].
  destruct (Nat.ltb (length a) 2); reflexivity.
Qed.

Lemma read_aux_reads (orbit : string) : reads_only (read_aux orbit).
Proof. intros w. reflexivity. Qed.

Lemma reads_only_run {A} (m : M A) (w w' : world) (r : result A) :
  reads_only m -> m w = (w', r) -> w' = w.
Proof. intros Hm E. specialize (Hm w). rewrite E in Hm. exact Hm. Qed.

Lemma read_rpb_rows (orbit : string) (w w' : world) (rpb : matrix) :
  read_rpb orbit w = (w', Ok rpb) ->
  shape0 rpb = rows /\ length (flat rpb) = shape1 rpb * rows.
Proof.
  unfold read_rpb, mbind, M_bind.
  destruct (w_rpb w orbit) as [a |]; simpl; [| discriminate].
  destruct (Nat.eqb (length a) _) eqn:El; [| discriminate].
  intros E. inversion E; subst; simpl.
  apply Nat.eqb_eq in El. split; [reflexivity | exact El].
Qed.

Lemma of_columns_ok (cols : list (string * ndarray)) (df : DataFrame) :
  of_columns cols = Ok df ->
  df_cols df = cols /\
  Forall (fun kc => length (snd kc) = df_len df) cols.
Proof.
  unfold of_columns. destruct cols as [| [k c] cols'].
  - intros E. inversion E. split; [reflexivity | constructor].
  - destruct (forallb _ _) eqn:Hall; [| discriminate].
    intros E. inversion E; subst; simpl. split; [reflexivity |].
    rewrite forallb_forall in Hall. apply List.Forall_forall.
    intros kc Hin. apply Nat.eqb_eq. apply Hall. exact Hin.
Qed.

Section Pipeline.

Context `{Collaborators}.

Lemma resample_length (x y xnew v : ndarray) :
  resample x y xnew = Ok v -> length v = length xnew.
Proof.
  unfold resample. intros E. apply rbind_inv in E. destruct E as (t & _ & E).
  inversion E. apply length_map.
Qed.

Lemma get_aux_reads (orbit : string) : reads_only (get_aux orbit).
Proof.
  unfold get_aux.
  apply reads_only_bind; [apply read_aux_reads | intros aux].
  apply reads_only_bind; [apply read_rpb_reads | intros rpb].
  repeat (apply reads_only_bind; [apply reads_only_lift | intros ?]).
  apply reads_only_lift.
Qed.

Lemma arange_length (n : nat) : length (arange n) = n.
Proof. unfold arange. rewrite length_map. apply length_seq. Qed.

(** The table [get_aux] returns has one row per frame of the waveform
    matrix, in every column, and holds the derived range. *)
Lemma get_aux_shape (orbit : string) (w w' : world) (aux : DataFrame) :
  get_aux orbit w = (w', Ok aux) ->
  w' = w /\
  exists rpb rng,
    read_rpb orbit w = (w, Ok rpb) /\
    df_len aux = shape1 rpb /\
    Forall (fun kc => length (snd kc) = shape1 rpb) (df_cols aux) /\
    column aux "rng" = Ok rng /\
    length rng = shape1 rpb.
Proof.
  intros E.
  assert (Hw : w' = w) by (eapply reads_only_run; [apply get_aux_reads | exact E]).
  subst w'. split; [reflexivity |].
  unfold get_aux in E.
  apply bind_inv in E. destruct E as (tab & w1 & Etab & E).
  assert (w1 = w) by (eapply reads_only_run; [apply read_aux_reads | eassumption]).
  subst w1.
  apply bind_inv in E. destruct E as (rpb & w1 & Erpb & E).
  assert (w1 = w) by (eapply reads_only_run; [apply read_rpb_reads | eassumption]).
  subst w1.
  apply bind_inv in E. destruct E as (utc & w1 & Eutc & E).
  apply lift_inv in Eutc. destruct Eutc as [-> Eutc].
  do 13 (let E' := fresh "C" in
         apply bind_inv in E; destruct E as (? & ? & E' & E);
         apply lift_inv in E'; destruct E' as [-> E'];
         apply rbind_inv in E'; destruct E' as (? & _ & E');
         apply resample_length in E'; rewrite arange_length in E').
  apply lift_inv in E. destruct E as [_ E].
  apply of_columns_ok in E. destruct E as (Hcols & Hall).
  assert (Hlen : df_len aux = shape1 rpb).
  { inversion Hall as [| kc l Hkc _]; subst. simpl in Hkc. congruence. }
  exists rpb. eexists. split; [exact Erpb |].
  split; [exact Hlen |].
  split.
  - rewrite Hcols, <- Hlen. exact Hall.
  - unfold column. rewrite Hcols. simpl. split; [reflexivity |].
    do 7 (apply Forall_inv_tail in Hall). apply Forall_inv in Hall.
    simpl in Hall. congruence.
Qed.

End Pipeline.

(* ===================================================================== *)
(** * Indexed assignment and the extraction loop *)
(* ===================================================================== *)

Lemma mapM_result_inv {A B} (f : A -> result B) (l : list A) (r : list B) :
  mapM f l = Ok r -> Forall2 (fun a b => f a = Ok b) l r.
Proof.
  revert r. induction l as [| a l IH]; intros r E.
  - inversion E. constructor.
  - simpl in E. apply rbind_inv in E. destruct E as (b & Eb & E).
    apply rbind_inv in E. destruct E as (k & Ek & E).
    inversion E; subst. constructor; [exact Eb | apply IH; exact Ek].
Qed.

Lemma mapM_result_ok {A B} (f : A -> result B) (l : list A) (r : list B) :
  Forall2 (fun a b => f a = Ok b) l r -> mapM f l = Ok r.
Proof.
  induction 1 as [| a b l r Eb _ IH]; [reflexivity |].
  simpl. rewrite Eb. simpl. rewrite IH. reflexivity.
Qed.

Lemma scatter_length (writes : list (nat * npfloat)) (out : ndarray) :
  length (scatter out writes) = length out.
Proof.
  revert out. induction writes as [| [i v] writes IH]; intros out; simpl.
  - reflexivity.
  - unfold scatter in *. simpl. rewrite IH. apply length_insert.
Qed.

Lemma scatter_untouched (writes : list (nat * npfloat)) (out : ndarray) (j : nat) :
  ~ In j (map fst writes) -> scatter out writes !! j = out !! j.
Proof.
  revert out. induction writes as [| [i v] writes IH]; intros out Hj.
  - reflexivity.
  - unfold scatter in *. simpl in *. rewrite IH by tauto.
    apply list_lookup_insert_ne. intros ->. tauto.
Qed.

Lemma scatter_last_write (w1 w2 : list (nat * npfloat)) (out : ndarray)
    (j : nat) (v : npfloat) :
  j < length out -> ~ In j (map fst w2) ->
  scatter out (w1 ++ (j, v) :: w2) !! j = Some v.
Proof.
  intros Hj Hlater. unfold scatter. rewrite fold_left_app. simpl.
  fold (scatter out w1).
  fold (scatter (<[j := v]> (scatter out w1)) w2).
  rewrite scatter_untouched by exact Hlater.
  apply list_lookup_insert_eq. rewrite scatter_length. exact Hj.
Qed.

Lemma echo_loop_from (rpb : matrix) (z : list Z) (xs : list Q) (k : nat)
    (echo : ndarray) :
  k + length xs <= length echo ->
  echo_loop rpb z (zip (seq k (length xs)) xs) echo =
  take k echo
    ++ map (fun iv => echo_value rpb z (fst iv) (snd iv))
           (zip (seq k (length xs)) xs)
    ++ drop (k + length xs) echo.
Proof.
  revert k echo. induction xs as [| val xs IH]; intros k echo Hk.
  - simpl. rewrite Nat.add_0_r. symmetry. apply take_drop.
  - simpl in Hk. simpl.
    rewrite IH by (rewrite length_insert; lia).
    rewrite (take_S_r _ k (echo_value rpb z k val))
      by (apply list_lookup_insert_eq; lia).
    rewrite take_insert_ge by lia.
    rewrite drop_insert_lt by lia.
    rewrite <- app_assoc. simpl.
    replace (k + S (length xs)) with (S (k + length xs)) by lia.
    reflexivity.
Qed.

(** The loop fills [echo] with one value per pick, in the order of the
    pick table. *)
Lemma echo_loop_enumerate (rpb : matrix) (z : list Z) (xs : list Q) :
  echo_loop rpb z (enumerate xs) (zeros (length xs)) =
  map (fun iv => echo_value rpb z (fst iv) (snd iv)) (enumerate xs).
Proof.
  unfold enumerate. rewrite echo_loop_from.
  - simpl. rewrite drop_ge by (unfold zeros; rewrite length_replicate; lia).
    apply app_nil_r.
  - unfold zeros. rewrite length_replicate. lia.
Qed.

Lemma enumerate_lookup {A} (l : list A) (k : nat) (a : A) :
  l !! k = Some a -> enumerate l !! k = Some (k, a).
Proof.
  intros E. unfold enumerate. apply lookup_zip_with_Some.
  exists k, a. split; [reflexivity |]. split; [| exact E].
  apply lookup_seq. split; [reflexivity |]. eapply lookup_lt_Some; exact E.
Qed.

Lemma enumerate_length {A} (l : list A) : length (enumerate l) = length l.
Proof.
  unfold enumerate. rewrite length_zip_with, length_seq. lia.
Qed.

Lemma get_pik_unfold (orbit : string) (w : world) (pik : list pick)
    (rpb : matrix) :
  read_pik orbit w = (w, Ok pik) ->
  read_rpb orbit w = (w, Ok rpb) ->
  get_pik orbit w =
  match setitem_list (fresh_block w (shape1 rpb)) (pik_x pik) (pik_echo rpb pik) with
  | Ok a' => (with_heap (w_heap w ++ [a']) w, Ok (length (w_heap w)))
  | Raise e => (with_heap (w_heap w ++ [fresh_block w (shape1 rpb)]) w, Raise e)
  end.
Proof.
  intros Epik Erpb. unfold get_pik.
  rewrite (bind_ok _ _ _ _ _ Epik).
  rewrite (bind_ok _ _ _ _ _ Erpb).
  unfold mbind at 1, M_bind at 1. unfold np_empty, alloc.
  unfold mbind at 1, M_bind at 1. unfold load at 1. cbn [w_heap with_heap].
  rewrite lookup_app_r by lia. rewrite Nat.sub_diag. cbn [lookup list_lookup from_option].
  fold (fresh_block w (shape1 rpb)). fold (pik_echo rpb pik).
  unfold mbind at 1, M_bind at 1. unfold lift at 1.
  destruct (setitem_list _ _ _) as [a' | e]; [| reflexivity].
  unfold mbind, M_bind, store, mret, M_ret. cbn [w_heap with_heap].
  rewrite insert_app_r_alt by lia. rewrite Nat.sub_diag.
  unfold with_heap. simpl. reflexivity.
Qed.

Lemma get_pik_inv (orbit : string) (w w' : world) (out : ref) :
  get_pik orbit w = (w', Ok out) ->
  exists pik rpb a',
    read_pik orbit w = (w, Ok pik) /\
    read_rpb orbit w = (w, Ok rpb) /\
    setitem_list (fresh_block w (shape1 rpb)) (pik_x pik) (pik_echo rpb pik)
      = Ok a' /\
    out = length (w_heap w) /\
    w' = with_heap (w_heap w ++ [a']) w.
Proof.
  intros E.
  destruct (read_pik orbit w) as [w1 [pik | e]] eqn:Epik.
  2:{ unfold get_pik in E. rewrite (bind_raise _ _ _ _ _ Epik) in E. discriminate. }
  assert (w1 = w) by (eapply reads_only_run; [apply read_pik_reads | exact Epik]).
  subst w1.
  destruct (read_rpb orbit w) as [w1 [rpb | e]] eqn:Erpb.
  2:{ unfold get_pik in E. rewrite (bind_ok _ _ _ _ _ Epik) in E.
      rewrite (bind_raise _ _ _ _ _ Erpb) in E. discriminate. }
  assert (w1 = w) by (eapply reads_only_run; [apply read_rpb_reads | exact Erpb]).
  subst w1.
  rewrite (get_pik_unfold _ _ _ _ Epik Erpb) in E.
  destruct (setitem_list _ _ _) as [a' | e] eqn:Eset; [| discriminate].
  inversion E; subst. exists pik, rpb, a'.
  repeat split; first [reflexivity | assumption].
Qed.

Lemma calibration_unfold (val : ref) (wl : R) (rng : option operand)
    (abs_calib : npfloat) (w : world) (a : ndarray) :
  w_heap w !! val = Some a ->
  calibration val wl rng abs_calib w =
  (with_heap (<[val := zero_to_nan a]> (w_heap w)) w,
   array_add (map (decibel abs_calib) (zero_to_nan a)) (geometric_loss rng)).
Proof.
  intros Ea. unfold calibration.
  unfold mbind at 1, M_bind at 1. unfold load at 1. rewrite Ea. cbn [from_option].
  unfold mbind at 1, M_bind at 1. unfold store at 1.
  unfold mbind at 1, M_bind at 1. unfold load at 1. cbn [w_heap with_heap].
  rewrite list_lookup_insert_eq by (eapply lookup_lt_Some; exact Ea).
  cbn [from_option]. fold (zero_to_nan a).
  rewrite map_map. fold (decibel abs_calib).
  unfold mbind, M_bind, lift, mret, M_ret.
  destruct (array_add _ _); reflexivity.
Qed.

(* ===================================================================== *)
(** * The Calibrator *)
(* ===================================================================== *)

Lemma map_lookup {A B} (f : A -> B) (l : list A) (i : nat) :
  map f l !! i = option_map f (l !! i).
Proof.
  revert i. induction l as [| a l IH]; intros [| i]; simpl; auto.
Qed.

Lemma map_lookup_Some {A B} (f : A -> B) (l : list A) (i : nat) (b : B) :
  map f l !! i = Some b -> exists a, l !! i = Some a /\ b = f a.
Proof.
  rewrite map_lookup. destruct (l !! i) as [a |]; simpl; intros E;
    inversion E. exists a. split; reflexivity.
Qed.

Lemma zero_to_nan_length (a : ndarray) : length (zero_to_nan a) = length a.
Proof. unfold zero_to_nan, assign_where. apply length_map. Qed.

Lemma zero_to_nan_lookup (a : ndarray) (i : nat) (v : npfloat) :
  a !! i = Some v ->
  zero_to_nan a !! i = Some (if feqb v (Fin 0) then NaN else v).
Proof.
  intros E. unfold zero_to_nan, assign_where.
  rewrite map_lookup, E. reflexivity.
Qed.

Lemma broadcast_nan (a b out : ndarray) (i : nat) (v : npfloat) :
  broadcast fadd a b = Ok out ->
  a !! i = Some NaN -> out !! i = Some v -> v = NaN.
Proof.
  unfold broadcast. intros E Ha Hv.
  destruct (Nat.eqb (length a) (length b)) eqn:El.
  - inversion E; subst out. apply lookup_zip_with_Some in Hv.
    destruct Hv as (x & y & -> & Hx & _). rewrite Ha in Hx.
    inversion Hx; subst. reflexivity.
  - destruct a as [| u [| u' a'']].
    + discriminate.
    + destruct i; [| discriminate]. simpl in Ha. inversion Ha; subst u.
      inversion E; subst out. apply map_lookup_Some in Hv.
      destruct Hv as (y & _ & ->). reflexivity.
    + destruct b as [| y [| y' b'']]; try discriminate.
      inversion E; subst out.
      change (map (fun x => fadd x y) (u :: u' :: a'') !! i = Some v) in Hv.
      apply map_lookup_Some in Hv.
      destruct Hv as (x & Hx & ->). rewrite Ha in Hx. inversion Hx; subst.
      reflexivity.
Qed.

Lemma array_add_nan (a out : ndarray) (o : operand) (i : nat) (v : npfloat) :
  array_add a o = Ok out ->
  a !! i = Some NaN -> out !! i = Some v -> v = NaN.
Proof.
  destruct o as [s | b]; simpl.
  - intros E Ha Hv. inversion E; subst out.
    apply map_lookup_Some in Hv. destruct Hv as (x & Hx & ->).
    rewrite Ha in Hx. inversion Hx; subst. reflexivity.
  - apply broadcast_nan.
Qed.

Lemma array_add_same_length (a : ndarray) (o : operand) :
  match o with Array b => length b = length a | Scalar _ => True end ->
  exists out,
    array_add a o = Ok out /\ length out = length a /\
    forall i u, a !! i = Some u ->
      exists g, out !! i = Some (fadd u g).
Proof.
  destruct o as [s | b]; simpl; intros Hl.
  - eexists. split; [reflexivity |]. split; [apply length_map |].
    intros i u Hu. exists s. rewrite map_lookup, Hu. reflexivity.
  - unfold broadcast. rewrite Hl, Nat.eqb_refl.
    eexists. split; [reflexivity |]. split.
    + rewrite length_zip_with. lia.
    + intros i u Hu.
      destruct (b !! i) as [g |] eqn:Hg.
      * exists g. apply lookup_zip_with_Some. exists u, g. auto.
      * apply lookup_ge_None in Hg. apply lookup_lt_Some in Hu. lia.
Qed.

Lemma geometric_loss_fits (rng : option operand) (n : nat) :
  match rng with Some (Array r) => length r = n | _ => True end ->
  match geometric_loss rng with Array b => length b = n | Scalar _ => True end.
Proof.
  destruct rng as [[s | r] |]; simpl; intros E; try exact I.
  rewrite length_map. exact E.
Qed.

(** C4.  An entry of [val] that is exactly zero is calibrated to
    not-a-number, and never to minus infinity, whatever [wl], [rng] and
    [abs_calib] are: every value the call returns at that index is
    not-a-number, and when [rng] is absent, a scalar, or an array of the
    length of [val], the call does return and holds not-a-number there. *)
Theorem calibration_zero_is_nan (w : world) (val : ref) (a : ndarray)
    (wl : R) (rng : option operand) (abs_calib : npfloat) (i : nat) :
  w_heap w !! val = Some a ->
  a !! i = Some (Fin 0) ->
  (forall out v,
      snd (calibration val wl rng abs_calib w) = Ok out ->
      out !! i = Some v -> v = NaN /\ v <> NInf) /\
  (match rng with Some (Array r) => length r = length a | _ => True end ->
   exists out,
     snd (calibration val wl rng abs_calib w) = Ok out /\
     length out = length a /\ out !! i = Some NaN).
Proof.
  intros Ha Hz.
  rewrite (calibration_unfold _ _ _ _ _ _ Ha). cbn [snd].
  assert (Hnan : map (decibel abs_calib) (zero_to_nan a) !! i = Some NaN).
  { rewrite map_lookup, (zero_to_nan_lookup _ _ _ Hz). simpl.
    destruct (Req_dec_T 0 0) as [_ | Hne]; [reflexivity | contradiction]. }
  split.
  - intros out v E Hv.
    assert (v = NaN) by (eapply array_add_nan; eassumption).
    subst v. split; [reflexivity | discriminate].
  - intros Hfit.
    destruct (array_add_same_length (map (decibel abs_calib) (zero_to_nan a))
                (geometric_loss rng)) as (out & E & Hl & Hpt).
    { apply geometric_loss_fits. rewrite length_map, zero_to_nan_length.
      exact Hfit. }
    exists out. split; [exact E |]. split.
    + rewrite Hl, length_map. apply zero_to_nan_length.
    + destruct (Hpt _ _ Hnan) as (g & ->). reflexivity.
Qed.

(** C9.  [calibration] writes to the array object it is given: after the
    call, whether it returned or raised, the caller's array holds
    not-a-number wherever it held zero and is otherwise as before; an array
    with a zero entry is therefore not left unchanged. *)
Theorem calibration_mutates_val (w : world) (val : ref) (a : ndarray)
    (wl : R) (rng : option operand) (abs_calib : npfloat) :
  w_heap w !! val = Some a ->
  exists a',
    w_heap (fst (calibration val wl rng abs_calib w)) !! val = Some a' /\
    length a' = length a /\
    (forall i, a !! i = Some (Fin 0) -> a' !! i = Some NaN) /\
    (forall i v, a !! i = Some v -> v <> Fin 0 -> a' !! i = Some v) /\
    (In (Fin 0) a -> a' <> a).
Proof.
  intros Ha. exists (zero_to_nan a).
  rewrite (calibration_unfold _ _ _ _ _ _ Ha). cbn [fst w_heap with_heap].
  split; [apply list_lookup_insert_eq; eapply lookup_lt_Some; exact Ha |].
  split; [apply zero_to_nan_length |].
  split; [| split].
  - intros i Hi. rewrite (zero_to_nan_lookup _ _ _ Hi).
    replace (feqb (Fin 0) (Fin 0)) with true; [reflexivity |].
    symmetry. apply feqb_zero_true. reflexivity.
  - intros i v Hi Hv. rewrite (zero_to_nan_lookup _ _ _ Hi).
    destruct (feqb v (Fin 0)) eqn:Ez; [| reflexivity].
    apply feqb_zero_true in Ez. contradiction.
  - intros Hin Heq. apply list_elem_of_In in Hin.
    apply list_elem_of_lookup in Hin. destruct Hin as (i & Hi).
    pose proof (zero_to_nan_lookup _ _ _ Hi) as Hn. rewrite Heq, Hi in Hn.
    replace (feqb (Fin 0) (Fin 0)) with true in Hn; [discriminate |].
    symmetry. apply feqb_zero_true. reflexivity.
Qed.

(* ===================================================================== *)
(** * The Orchestrator *)
(* ===================================================================== *)

Lemma screen_amplitude_lookup (pdb : ndarray) (i : nat) :
  screen_amplitude pdb !! i =
  option_map (fun v => pow10 (fdiv (screened v) (Fin 20))) (pdb !! i).
Proof.
  unfold screen_amplitude, assign_where. rewrite !map_map.
  rewrite map_lookup. reflexivity.
Qed.

Lemma screen_amplitude_length (pdb : ndarray) :
  length (screen_amplitude pdb) = length pdb.
Proof. unfold screen_amplitude, assign_where. rewrite !length_map. reflexivity. Qed.


Lemma assoc_put_same (k : string) (v : ndarray) (l : list (string * ndarray)) :
  assoc k (put k v l) = Some v.
Proof.
  induction l as [| [k' v'] l IH]; simpl.
  - rewrite String.eqb_refl. reflexivity.
  - destruct (String.eqb k k') eqn:Ek; simpl.
    + rewrite String.eqb_refl. reflexivity.
    + rewrite Ek. exact IH.
Qed.

Lemma put_lengths (n : nat) (k : string) (v : ndarray)
    (l : list (string * ndarray)) :
  length v = n ->
  Forall (fun kc => length (snd kc) = n) l ->
  Forall (fun kc => length (snd kc) = n) (put k v l).
Proof.
  intros Hv. induction 1 as [| [k' v'] l Hk Hl IH]; simpl.
  - repeat constructor. exact Hv.
  - destruct (String.eqb k k'); constructor; assumption.
Qed.

Lemma setitem_inv (df t : DataFrame) (name : string) (values : ndarray) :
  setitem df name values = Ok t ->
  length values = df_len df /\
  t = mkDF (df_len df) (put name values (df_cols df)).
Proof.
  unfold setitem. destruct (Nat.eqb _ _) eqn:El; [| discriminate].
  intros E. inversion E. apply Nat.eqb_eq in El. split; [exact El | reflexivity].
Qed.

Section Orchestrator.

Context `{Collaborators}.

Lemma get_srf_inv (orbit : string) (save : bool) (w w' : world)
    (t : DataFrame) :
  get_srf orbit save w = (w', Ok t) ->
  exists aux pik w2 rng pdb w3,
    get_aux orbit w = (w, Ok aux) /\
    get_pik orbit w = (w2, Ok pik) /\
    column aux "rng" = Ok rng /\
    calibration pik (Params.ct_c / Params.frq) (Some (Array rng))
      Params.abs_calib w2 = (w3, Ok pdb) /\
    setitem aux "amp" (screen_amplitude pdb) = Ok t /\
    w' = if save then with_files (w_files w3 ++ [srf_entry orbit t]) w3 else w3.
Proof.
  intros E. unfold get_srf in E.
  apply bind_inv in E. destruct E as (aux & w1 & Eaux & E).
  assert (w1 = w) by (eapply reads_only_run; [apply get_aux_reads | exact Eaux]).
  subst w1.
  apply bind_inv in E. destruct E as (pik & w2 & Epik & E).
  apply bind_inv in E. destruct E as (rng & w2' & Erng & E).
  apply lift_inv in Erng. destruct Erng as [-> Erng].
  apply bind_inv in E. destruct E as (pdb & w3 & Ecal & E).
  apply bind_inv in E. destruct E as (t' & w3' & Eset & E).
  apply lift_inv in Eset. destruct Eset as [-> Eset].
  apply bind_inv in E. destruct E as ([] & w4 & Esave & E).
  inversion E; subst t' w4. clear E.
  exists aux, pik, w2, rng, pdb, w3.
  repeat (split; [assumption |]).
  destruct save.
  - unfold write_file in Esave. inversion Esave. reflexivity.
  - inversion Esave. reflexivity.
Qed.

End Orchestrator.

Lemma appends_lift {A} (r : result A) : appends_files (lift r).
Proof. intros w. exists []. simpl. rewrite app_nil_r. reflexivity. Qed.

Lemma appends_ret {A} (a : A) : appends_files (mret a : M A).
Proof. intros w. exists []. simpl. rewrite app_nil_r. reflexivity. Qed.

Lemma appends_ask {A} (f : world -> A) : appends_files (ask f).
Proof. intros w. exists []. simpl. rewrite app_nil_r. reflexivity. Qed.

Lemma appends_write (path : string) (c : file_content) :
  appends_files (write_file path c).
Proof. intros w. exists [(path, c)]. reflexivity. Qed.

Lemma appends_bind {A B} (m : M A) (f : A -> M B) :
  appends_files m -> (forall a, appends_files (f a)) -> appends_files (m ≫= f).
Proof.
  intros Hm Hf w. unfold mbind, M_bind.
  destruct (Hm w) as (e1 & He1). destruct (m w) as [w1 [a | e]]; simpl in He1.
  - destruct (Hf a w1) as (e2 & He2). exists (e1 ++ e2).
    rewrite He2, He1, app_assoc. reflexivity.
  - exists e1. exact He1.
Qed.

Section Track.

Context `{Collaborators}.

Lemma setitem_list_length (out a' : ndarray) (x : list Q) (values : ndarray) :
  setitem_list out x values = Ok a' -> length a' = length out.
Proof.
  unfold setitem_list. intros E. apply rbind_inv in E.
  destruct E as (idx & _ & E).
  destruct (Nat.eqb _ _); [| discriminate].
  inversion E. apply (scatter_length (zip idx values) out).
Qed.

Lemma fresh_block_length (w : world) (n : nat) : length (fresh_block w n) = n.
Proof. unfold fresh_block. rewrite length_map. apply length_seq. Qed.

(** What [get_pik] leaves in the heap: one new array, of the along-track
    length of the waveform matrix. *)
Lemma get_pik_heap (orbit : string) (w w' : world) (out : ref) :
  get_pik orbit w = (w', Ok out) ->
  exists rpb a',
    read_rpb orbit w = (w, Ok rpb) /\
    w_heap w' !! out = Some a' /\
    length a' = shape1 rpb /\
    w_files w' = w_files w.
Proof.
  intros E. apply get_pik_inv in E.
  destruct E as (pik & rpb & a' & Epik & Erpb & Eset & -> & ->).
  exists rpb, a'. split; [exact Erpb |]. split; [| split].
  - cbn [w_heap with_heap]. rewrite lookup_app_r by lia.
    rewrite Nat.sub_diag. reflexivity.
  - rewrite (setitem_list_length _ _ _ _ Eset). apply fresh_block_length.
  - reflexivity.
Qed.

(** [get_srf] returns whenever its two input stages do, and then the
    table is the telemetry table with the amplitude column attached. *)
Lemma get_srf_run (orbit : string) (save : bool) (w w2 : world)
    (aux : DataFrame) (pik : ref) (rng a : ndarray) :
  get_aux orbit w = (w, Ok aux) ->
  get_pik orbit w = (w2, Ok pik) ->
  column aux "rng" = Ok rng ->
  w_heap w2 !! pik = Some a ->
  length rng = length a ->
  df_len aux = length a ->
  let t := mkDF (df_len aux)
             (put "amp" (screen_amplitude (calibrated a rng)) (df_cols aux)) in
  let w3 := with_heap (<[pik := zero_to_nan a]> (w_heap w2)) w2 in
  get_srf orbit save w =
  (if save then with_files (w_files w3 ++ [srf_entry orbit t]) w3 else w3,
   Ok t).
Proof.
  intros Eaux Epik Erng Ha Hl Hn t w3. unfold get_srf.
  rewrite (bind_ok _ _ _ _ _ Eaux).
  rewrite (bind_ok _ _ _ _ _ Epik).
  unfold mbind at 1, M_bind at 1, lift at 1. rewrite Erng.
  unfold mbind at 1, M_bind at 1.
  rewrite (calibration_unfold _ _ _ _ _ _ Ha).
  cbn [array_add geometric_loss operand_map]. fold range_loss.
  unfold broadcast. rewrite !length_map, zero_to_nan_length, Hl, Nat.eqb_refl.
  fold (calibrated a rng). fold w3.
  unfold mbind at 1, M_bind at 1, lift at 1.
  unfold setitem. rewrite screen_amplitude_length.
  unfold calibrated at 1. rewrite length_zip_with, !length_map, zero_to_nan_length.
  replace (Nat.eqb (length a `min` length rng) (df_len aux)) with true
    by (symmetry; apply Nat.eqb_eq; lia).
  fold t. destruct save; reflexivity.
Qed.

(** C7.  The table [get_srf] returns has exactly one row per frame of the
    orbit's waveform matrix, and each of its columns has that length,
    whatever the pick table holds. *)
Theorem get_srf_shape (orbit : string) (save : bool) (w w' : world)
    (t : DataFrame) :
  get_srf orbit save w = (w', Ok t) ->
  exists rpb,
    read_rpb orbit w = (w, Ok rpb) /\
    df_len t = shape1 rpb /\
    Forall (fun kc => length (snd kc) = shape1 rpb) (df_cols t).
Proof.
  intros E. apply get_srf_inv in E.
  destruct E as (aux & pik & w2 & rng & pdb & w3 & Eaux & _ & _ & _ & Eset & _).
  apply get_aux_shape in Eaux.
  destruct Eaux as (_ & rpb & rng' & Erpb & Hlen & Hcols & _).
  apply setitem_inv in Eset. destruct Eset as (Hamp & ->).
  exists rpb. split; [exact Erpb |]. split; [exact Hlen |].
  simpl. apply put_lengths; [congruence | exact Hcols].
Qed.

(** [get_srf] does return when the telemetry of the orbit can be
    resampled and the picks can be extracted, however many picks there
    are. *)
Lemma get_srf_returns (orbit : string) (save : bool) (w w2 : world)
    (aux : DataFrame) (pik : ref) :
  get_aux orbit w = (w, Ok aux) ->
  get_pik orbit w = (w2, Ok pik) ->
  exists w' t, get_srf orbit save w = (w', Ok t).
Proof.
  intros Eaux Epik.
  destruct (get_aux_shape _ _ _ _ Eaux)
    as (_ & rpb & rng & Erpb & Hlen & _ & Erng & Hrng).
  destruct (get_pik_heap _ _ _ _ Epik) as (rpb' & a & Erpb' & Ha & Hla & _).
  rewrite Erpb in Erpb'. inversion Erpb'; subst rpb'.
  eexists. eexists.
  apply (get_srf_run orbit save w w2 aux pik rng a); congruence.
Qed.


End Track.

Section Secondary.

Context `{Collaborators}.

Lemma calibration_keeps_files (val : ref) (wl : R) (rng : option operand)
    (abs_calib : npfloat) (w : world) :
  w_files (fst (calibration val wl rng abs_calib w)) = w_files w.
Proof.
  destruct (w_heap w !! val) as [a |] eqn:Ha.
  - rewrite (calibration_unfold _ _ _ _ _ _ Ha). reflexivity.
  - unfold calibration, mbind, M_bind, load. rewrite Ha. reflexivity.
Qed.

(** With [save=True] the pipeline writes the aligned track, and nothing
    else; with [save=False] it writes nothing. *)
Lemma get_srf_files (orbit : string) (save : bool) (w w' : world)
    (t : DataFrame) :
  get_srf orbit save w = (w', Ok t) ->
  w_files w' = w_files w ++ (if save then [srf_entry orbit t] else [])
  /\ w_cwd w' = w_cwd w.
Proof.
  intros E. apply get_srf_inv in E.
  destruct E as (aux & pik & w2 & rng & pdb & w3 & _ & Epik & _ & Ecal & _ & ->).
  pose proof (calibration_keeps_files pik (Params.ct_c / Params.frq)
                (Some (Array rng)) Params.abs_calib w2) as Hf.
  pose proof (get_pik_heap _ _ _ _ Epik) as (rpb & a & _ & Ha & _ & Hf2).
  rewrite (calibration_unfold _ _ _ _ _ _ Ha) in Ecal. inversion Ecal; subst w3.
  apply get_pik_inv in Epik.
  destruct Epik as (? & ? & ? & _ & _ & _ & _ & ->).
  destruct save; simpl; split; try reflexivity.
  rewrite app_nil_r. reflexivity.
Qed.

Lemma inline_rsr_split (orbit : string) (winsize sampling : npfloat)
    (save : bool) :
  inline_rsr orbit winsize sampling save =
  get_srf orbit true ≫= after_srf orbit winsize sampling save.
Proof. reflexivity. Qed.

Lemma after_srf_appends (orbit : string) (winsize sampling : npfloat)
    (save : bool) (srf : DataFrame) :
  appends_files (after_srf orbit winsize sampling save srf).
Proof.
  unfold after_srf.
  do 8 (apply appends_bind; [apply appends_lift | intros ?]).
  apply appends_bind; [| intros ?; apply appends_ret].
  destruct save; [| apply appends_ret].
  apply appends_bind; [apply appends_ask | intros cwd].
  apply appends_bind; [apply appends_write | intros _].
  apply appends_bind; [apply appends_lift | intros _].
  apply appends_write.
Qed.

Lemma after_srf_unsaved (orbit : string) (winsize sampling : npfloat)
    (srf : DataFrame) :
  reads_only (after_srf orbit winsize sampling false srf).
Proof.
  unfold after_srf.
  do 8 (apply reads_only_bind; [apply reads_only_lift | intros ?]).
  apply reads_only_bind; [apply reads_only_ret | intros ?].
  apply reads_only_ret.
Qed.

Lemma after_srf_files (orbit : string) (winsize sampling : npfloat)
    (save : bool) (srf b : DataFrame) (w w' : world) :
  after_srf orbit winsize sampling save srf w = (w', Ok b) ->
  w_files w' =
  w_files w ++ (if save then rsr_entries (w_cwd w) orbit b else []).
Proof.
  intros E. unfold after_srf in E.
  do 8 (let E' := fresh "L" in
        apply bind_inv in E; destruct E as (? & ? & E' & E);
        apply lift_inv in E'; destruct E' as [-> _]).
  apply bind_inv in E. destruct E as ([] & w1 & Esave & E).
  inversion E; subst. clear E.
  destruct save.
  - apply bind_inv in Esave. destruct Esave as (cwd & w2 & Ecwd & Esave).
    inversion Ecwd; subst. clear Ecwd.
    apply bind_inv in Esave. destruct Esave as ([] & w3 & Etxt & Esave).
    inversion Etxt; subst. clear Etxt.
    apply bind_inv in Esave. destruct Esave as ([] & w4 & Eplot & Esave).
    apply lift_inv in Eplot. destruct Eplot as [-> _].
    inversion Esave; subst. simpl. rewrite <- app_assoc. reflexivity.
  - inversion Esave; subst. rewrite app_nil_r. reflexivity.
Qed.

(** C10.  [inline_rsr] runs the pipeline with persistence switched on
    whatever its own [save] flag is: once the pipeline has returned, the
    aligned track of the orbit is among the files written, also when a
    later step raises.  The flag decides only the two further files: with
    [save=False] nothing else is written, and a call that returns has
    written the statistics table and the plot exactly when [save=True]. *)
Theorem inline_rsr_persists_track (orbit : string) (winsize sampling : npfloat)
    (save : bool) (w w1 : world) (t : DataFrame) :
  get_srf orbit true w = (w1, Ok t) ->
  let run := inline_rsr orbit winsize sampling save w in
  (exists extra,
      w_files (fst run) = w_files w ++ [srf_entry orbit t] ++ extra) /\
  (save = false -> w_files (fst run) = w_files w ++ [srf_entry orbit t]) /\
  (forall b, snd run = Ok b ->
      w_files (fst run) =
      w_files w ++ [srf_entry orbit t]
        ++ (if save then rsr_entries (w_cwd w) orbit b else [])).
Proof.
  intros Esrf run. subst run.
  destruct (get_srf_files _ _ _ _ _ Esrf) as (Hfiles & Hcwd).
  rewrite inline_rsr_split, (bind_ok _ _ _ _ _ Esrf).
  split; [| split].
  - destruct (after_srf_appends orbit winsize sampling save t w1) as (extra & He).
    exists extra. rewrite He, Hfiles, <- app_assoc. reflexivity.
  - intros ->. rewrite (after_srf_unsaved orbit winsize sampling t w1).
    exact Hfiles.
  - intros b Hb.
    destruct (after_srf orbit winsize sampling save t w1) as [w' r] eqn:E.
    simpl in Hb. subst r. simpl.
    rewrite (after_srf_files _ _ _ _ _ _ _ _ E), Hfiles, Hcwd, <- app_assoc.
    reflexivity.
Qed.

End Secondary.

(* ===================================================================== *)
(** * The Echo Extractor *)
(* ===================================================================== *)

Lemma pik_echo_map (rpb : matrix) (pik : list pick) :
  pik_echo rpb pik = map (pick_val rpb) pik.
Proof.
  unfold pik_echo. rewrite echo_loop_enumerate.
  apply list_eq. intros i. rewrite !map_lookup.
  destruct (pik !! i) as [p |] eqn:Ep.
  - assert (Ex : pik_x pik !! i = Some (frame p - inject_Z 1)%Q).
    { unfold pik_x. rewrite map_lookup, Ep. reflexivity. }
    rewrite (enumerate_lookup _ _ _ Ex). simpl.
    unfold echo_value, pik_z. rewrite map_lookup, Ep. reflexivity.
  - replace (enumerate (pik_x pik) !! i) with (@None (nat * Q)); [reflexivity |].
    symmetry. apply lookup_ge_None.
    rewrite enumerate_length. unfold pik_x. rewrite length_map.
    apply lookup_ge_None. exact Ep.
Qed.

Lemma Forall2_map_l {A B C} (P : B -> C -> Prop) (f : A -> B) (l : list A)
    (r : list C) :
  Forall2 P (map f l) r -> Forall2 (fun a c => P (f a) c) l r.
Proof.
  revert r. induction l as [| a l IH]; intros r Hr; inversion Hr; subst.
  - constructor.
  - constructor; [assumption | apply IH; assumption].
Qed.

Lemma Forall2_map_l_inv {A B C} (P : B -> C -> Prop) (f : A -> B) (l : list A)
    (r : list C) :
  Forall2 (fun a c => P (f a) c) l r -> Forall2 P (map f l) r.
Proof. induction 1; simpl; constructor; assumption. Qed.

(** The array [get_pik] returns is the fresh block with one write per
    pick, in the order of the pick table. *)
Lemma setitem_picks (out a' : ndarray) (rpb : matrix) (pik : list pick) :
  setitem_list out (pik_x pik) (pik_echo rpb pik) = Ok a' <->
  exists cols,
    Forall2 (fun p c => pick_col (length out) p = Ok c) pik cols /\
    a' = scatter out (zip cols (map (pick_val rpb) pik)).
Proof.
  rewrite pik_echo_map. unfold setitem_list. split.
  - intros E. apply rbind_inv in E. destruct E as (cols & Ecols & E).
    apply mapM_result_inv in Ecols. unfold pik_x in Ecols.
    apply Forall2_map_l in Ecols.
    destruct (Nat.eqb _ _); [| discriminate].
    inversion E. exists cols. split; [exact Ecols | reflexivity].
  - intros (cols & Hcols & ->).
    assert (Hlen : length pik = length cols) by (eapply Forall2_length; exact Hcols).
    apply Forall2_map_l_inv with (f := fun p => (frame p - inject_Z 1)%Q)
      (P := fun q c => index_axis (length out) (as_index q) = Ok c) in Hcols.
    apply mapM_result_ok in Hcols. unfold pik_x. rewrite Hcols. simpl.
    rewrite length_map, Hlen, Nat.eqb_refl. reflexivity.
Qed.

Lemma Forall2_app_inv_l' {A B} (P : A -> B -> Prop) (l1 l2 : list A)
    (r : list B) :
  Forall2 P (l1 ++ l2) r ->
  exists r1 r2, r = r1 ++ r2 /\ Forall2 P l1 r1 /\ Forall2 P l2 r2.
Proof.
  revert r. induction l1 as [| a l1 IH]; intros r Hr; simpl in Hr.
  - exists [], r. repeat split; [constructor | exact Hr].
  - inversion Hr as [| a' b l' r' Hab Hrest]; subst.
    destruct (IH _ Hrest) as (r1 & r2 & -> & H1 & H2).
    exists (b :: r1), r2. repeat split; [constructor; assumption | exact H2].
Qed.

Lemma zip_fst_subset {A B} (l : list A) (r : list B) (a : A) :
  In a (map fst (zip l r)) -> In a l.
Proof.
  revert r. induction l as [| a' l IH]; intros [| b r]; simpl; try tauto.
  intros [-> | Hin]; [left; reflexivity | right; eapply IH; exact Hin].
Qed.

Lemma Forall2_In_r {A B} (P : A -> B -> Prop) (l : list A) (r : list B) (b : B) :
  Forall2 P l r -> In b r -> exists a, In a l /\ P a b.
Proof.
  induction 1 as [| a b' l r Hab _ IH]; simpl; [tauto |].
  intros [-> | Hin].
  - exists a. split; [left; reflexivity | exact Hab].
  - destruct (IH Hin) as (a0 & Ha0 & HP). exists a0. split; [right |]; assumption.
Qed.

Lemma zip_app_same {A B} (l1 l2 : list A) (r1 r2 : list B) :
  length l1 = length r1 -> zip (l1 ++ l2) (r1 ++ r2) = zip l1 r1 ++ zip l2 r2.
Proof.
  revert r1. induction l1 as [| a l1 IH]; intros [| b r1] Hl; simpl in *;
    try discriminate; [reflexivity |].
  f_equal. apply IH. lia.
Qed.

Lemma scatter_skip (w1 w2 : list (nat * npfloat)) (out : ndarray)
    (c j : nat) (v : npfloat) :
  j <> c ->
  scatter out (w1 ++ (c, v) :: w2) !! j = scatter out (w1 ++ w2) !! j.
Proof.
  intros Hj. unfold scatter. rewrite !fold_left_app. simpl.
  generalize (fold_left (fun o iv => <[fst iv := snd iv]> o) w1 out) as o1.
  intros o1.
  assert (Hgen : forall ws (oa ob : ndarray),
             oa !! j = ob !! j ->
             fold_left (fun o iv => <[fst iv := snd iv]> o) ws oa !! j =
             fold_left (fun o iv => <[fst iv := snd iv]> o) ws ob !! j).
  { induction ws as [| [i u] ws IH]; intros oa ob Hab; simpl; [exact Hab |].
    apply IH. destruct (Nat.eq_dec i j) as [-> | Hne].
    - destruct (Nat.lt_ge_cases j (length oa)) as [Hlt | Hge].
      + rewrite !list_lookup_insert_eq; [reflexivity | | exact Hlt].
        apply lookup_lt_is_Some. rewrite <- Hab.
        apply lookup_lt_is_Some. exact Hlt.
      + rewrite !list_insert_ge; [exact Hab | | exact Hge].
        apply lookup_ge_None. rewrite <- Hab. apply lookup_ge_None. exact Hge.
    - rewrite !list_lookup_insert_ne by exact Hne. exact Hab. }
  apply Hgen. apply list_lookup_insert_ne. congruence.
Qed.

Lemma slice_inside (n : nat) (z : Z) :
  (2 <= z)%Z -> (z + 2 <= Z.of_nat n)%Z ->
  slice n (z - 2) (z + 2) = seq (Z.to_nat (z - 2)) 4.
Proof.
  intros Hlo Hhi. unfold slice, slice_bound.
  destruct (Z.ltb_spec (z - 2) 0); [lia |].
  destruct (Z.ltb_spec (z + 2) 0); [lia |].
  f_equal; lia.
Qed.

Lemma slice_below (n : nat) (z : Z) :
  4 <= n -> (-2 <= z)%Z -> (z < 2)%Z -> slice n (z - 2) (z + 2) = [].
Proof.
  intros Hn Hlo Hhi. unfold slice, slice_bound.
  destruct (Z.ltb_spec (z - 2) 0); [| lia].
  destruct (Z.ltb_spec (z + 2) 0); [lia |].
  replace (Z.to_nat (Z.min (z + 2) (Z.of_nat n))
           - Z.to_nat (Z.max (z - 2 + Z.of_nat n) 0)) with 0 by lia.
  reflexivity.
Qed.

Lemma slice_above (n : nat) (z : Z) :
  (Z.of_nat n + 2 <= z)%Z -> slice n (z - 2) (z + 2) = [].
Proof.
  intros Hz. unfold slice, slice_bound.
  destruct (Z.ltb_spec (z - 2) 0); [lia |].
  destruct (Z.ltb_spec (z + 2) 0); [lia |].
  replace (Z.to_nat (Z.min (z + 2) (Z.of_nat n))
           - Z.to_nat (Z.min (z - 2) (Z.of_nat n))) with 0 by lia.
  reflexivity.
Qed.

Lemma slice_overrun (n : nat) (z : Z) :
  (2 <= z)%Z -> (Z.of_nat n - 2 < z)%Z -> (z < Z.of_nat n + 2)%Z ->
  slice n (z - 2) (z + 2) =
  seq (Z.to_nat (z - 2)) (Z.to_nat (Z.of_nat n + 2 - z)).
Proof.
  intros Hlo Hhi Htop. unfold slice, slice_bound.
  destruct (Z.ltb_spec (z - 2) 0); [lia |].
  destruct (Z.ltb_spec (z + 2) 0); [lia |].
  f_equal; lia.
Qed.

Lemma round_nonneg (q : Q) : (0 < q)%Q -> (0 <= NP.round q)%Z.
Proof.
  intros Hq. unfold NP.round.
  assert (Hf : (0 <= Qfloor q)%Z).
  { change 0%Z with (Qfloor (inject_Z 0)). apply Qfloor_resp_le.
    apply Qlt_le_weak. exact Hq. }
  destruct (Qcompare _ _); [destruct (Z.even _) | |]; lia.
Qed.

Lemma read_pik_delay_positive (orbit : string) (w w' : world)
    (pik : list pick) (p : pick) :
  read_pik orbit w = (w', Ok pik) -> In p pik -> (-1 <= pick_z p)%Z.
Proof.
  unfold read_pik, mbind, M_bind.
  destruct (w_pik w orbit) as [a |]; cbn [from_option]; [| discriminate].
  destruct (Nat.ltb (length a) 2); [discriminate |].
  intros E Hin. inversion E; subst. clear E.
  apply in_map_iff in Hin. destruct Hin as (l & <- & Hl).
  apply filter_In in Hl. destruct Hl as (_ & Hpos).
  unfold pick_z. simpl.
  assert (Hq : (0 < col4 l)%Q).
  { apply Qnot_le_lt. intros Hle. apply Qle_bool_iff in Hle.
    change (inject_Z 0) with 0%Q in Hpos. rewrite Hle in Hpos. discriminate. }
  assert (Hd : (0 < col4 l / inject_Z 10 / (75 # 2) * inject_Z 1000)%Q).
  { apply Qmult_lt_0_compat; [| reflexivity].
    apply Qlt_shift_div_l; [reflexivity |]. rewrite Qmult_0_l.
    apply Qlt_shift_div_l; [reflexivity |]. rewrite Qmult_0_l. exact Hq. }
  pose proof (round_nonneg _ Hd). lia.
Qed.

Lemma pick_val_window (rpb : matrix) (p : pick) (c : nat) :
  pick_col (shape1 rpb) p = Ok c ->
  pick_val rpb p =
  match amax (samples rpb c
                (slice (shape0 rpb) (pick_z p - 2) (pick_z p + 2))) with
  | Some v => v
  | None => NaN
  end.
Proof.
  unfold pick_col, pick_val, window_max. intros ->. simpl.
  fold (samples rpb c (slice (shape0 rpb) (pick_z p - 2) (pick_z p + 2))).
  destruct (amax _); reflexivity.
Qed.

(** The block [np.empty] hands out, cell by cell. *)
Lemma fresh_block_lookup (w : world) (n j : nat) :
  j < n -> fresh_block w n !! j = Some (w_uninit w j).
Proof.
  intros Hj. unfold fresh_block. rewrite map_lookup.
  rewrite lookup_seq_lt by exact Hj. reflexivity.
Qed.

(** An index no pick is written to holds what the uninitialised block
    held there. *)
Lemma get_pik_unpicked (orbit : string) (w w' : world) (out : ref)
    (pik : list pick) (rpb : matrix) (j : nat) :
  get_pik orbit w = (w', Ok out) ->
  read_pik orbit w = (w, Ok pik) ->
  read_rpb orbit w = (w, Ok rpb) ->
  j < shape1 rpb ->
  (forall p, In p pik -> pick_col (shape1 rpb) p <> Ok j) ->
  exists a', w_heap w' !! out = Some a' /\ a' !! j = Some (w_uninit w j).
Proof.
  intros E Epik Erpb Hj Hfree. apply get_pik_inv in E.
  destruct E as (pik' & rpb' & a' & Epik' & Erpb' & Eset & -> & ->).
  rewrite Epik in Epik'. inversion Epik'; subst pik'.
  rewrite Erpb in Erpb'. inversion Erpb'; subst rpb'.
  exists a'. split.
  - cbn [w_heap with_heap]. rewrite lookup_app_r by lia.
    rewrite Nat.sub_diag. reflexivity.
  - apply setitem_picks in Eset. destruct Eset as (cols & Hcols & ->).
    rewrite fresh_block_length in Hcols.
    rewrite scatter_untouched; [apply fresh_block_lookup; exact Hj |].
    intros Hin. apply zip_fst_subset in Hin.
    destruct (Forall2_In_r _ _ _ _ Hcols Hin) as (p & Hp & Hc).
    exact (Hfree p Hp Hc).
Qed.

Lemma index_axis_lt (n : nat) (i : Z) (c : nat) :
  index_axis n i = Ok c -> c < n.
Proof.
  unfold index_axis.
  destruct (Z.leb_spec 0 i); destruct (Z.ltb_spec i (Z.of_nat n)); simpl;
    try (intros E; inversion E; lia);
    destruct (Z.leb_spec (- Z.of_nat n) i); destruct (Z.ltb_spec i 0); simpl;
    intros E; inversion E; lia.
Qed.

(** The last pick written to a column decides its value, and a pick does
    not touch any other column. *)
Lemma extracted_pick (blk a' : ndarray) (rpb : matrix) (l1 l2 : list pick)
    (p : pick) (c : nat) :
  extracted blk rpb (l1 ++ p :: l2) = Ok a' ->
  pick_col (length blk) p = Ok c ->
  (forall p', In p' l2 -> pick_col (length blk) p' <> Ok c) ->
  a' !! c = Some (pick_val rpb p) /\
  exists a'',
    extracted blk rpb (l1 ++ l2) = Ok a'' /\
    forall j, j <> c -> a' !! j = a'' !! j.
Proof.
  unfold extracted. intros E Hc Hlater.
  apply setitem_picks in E. destruct E as (cols & Hcols & ->).
  apply Forall2_app_inv_l' in Hcols.
  destruct Hcols as (r1 & r2' & -> & H1 & H2).
  inversion H2 as [| p0 c0 l2' r2 Hc0 H2' ]; subst. clear H2.
  rewrite Hc in Hc0. inversion Hc0; subst c0. clear Hc0.
  assert (Hl1 : length r1 = length (map (pick_val rpb) l1)).
  { rewrite length_map. symmetry. eapply Forall2_length. exact H1. }
  rewrite map_app. simpl map.
  rewrite (zip_app_same r1 (c :: r2) _ _ Hl1). simpl.
  split.
  - apply scatter_last_write.
    + apply index_axis_lt in Hc. exact Hc.
    + intros Hin. apply zip_fst_subset in Hin.
      destruct (Forall2_In_r _ _ _ _ H2' Hin) as (p' & Hp' & Hc').
      exact (Hlater p' Hp' Hc').
  - exists (scatter blk (zip (r1 ++ r2) (map (pick_val rpb) (l1 ++ l2)))).
    split.
    + apply setitem_picks. exists (r1 ++ r2). split; [| reflexivity].
      apply Forall2_app; assumption.
    + intros j Hj. rewrite map_app, (zip_app_same r1 r2 _ _ Hl1).
      apply scatter_skip. exact Hj.
Qed.

Lemma index_axis_outcome (n : nat) (i : Z) :
  ((- Z.of_nat n <= i < Z.of_nat n)%Z /\ exists c, index_axis n i = Ok c) \/
  (~ (- Z.of_nat n <= i < Z.of_nat n)%Z /\ index_axis n i = Raise IndexError).
Proof.
  unfold index_axis.
  destruct (Z.leb_spec 0 i); destruct (Z.ltb_spec i (Z.of_nat n)); simpl;
    try (left; split; [lia | eexists; reflexivity]);
    destruct (Z.leb_spec (- Z.of_nat n) i); destruct (Z.ltb_spec i 0); simpl;
    try (left; split; [lia | eexists; reflexivity]);
    right; split; try reflexivity; lia.
Qed.

Lemma mapM_result_total {A B} (f : A -> result B) (l : list A) :
  Forall (fun a => exists b, f a = Ok b) l -> exists r, mapM f l = Ok r.
Proof.
  induction 1 as [| a l (b & Eb) _ (r & Er)].
  - exists []. reflexivity.
  - exists (b :: r). simpl. rewrite Eb. simpl. rewrite Er. reflexivity.
Qed.

Lemma pik_echo_length (rpb : matrix) (pik : list pick) :
  length (pik_echo rpb pik) = length pik.
Proof. rewrite pik_echo_map. apply length_map. Qed.

(** [get_pik] returns when every pick has its frame number, less one,
    within the along-track axis, counted from either end. *)
Lemma get_pik_in_range (orbit : string) (w : world) (pik : list pick)
    (rpb : matrix) :
  read_pik orbit w = (w, Ok pik) ->
  read_rpb orbit w = (w, Ok rpb) ->
  Forall (fun q =>
            (- Z.of_nat (shape1 rpb) <= as_index (frame q - inject_Z 1)%Q
             < Z.of_nat (shape1 rpb))%Z) pik ->
  exists w' out, get_pik orbit w = (w', Ok out).
Proof.
  intros Epik Erpb Hall.
  rewrite (get_pik_unfold _ _ _ _ Epik Erpb).
  unfold setitem_list. rewrite fresh_block_length, pik_echo_length.
  set (f := fun q => index_axis (shape1 rpb) (as_index q)).
  destruct (mapM_result_total f (pik_x pik)) as (idx & Eidx).
  { unfold pik_x. apply List.Forall_forall. intros q Hq.
    apply in_map_iff in Hq. destruct Hq as (p & <- & Hp).
    rewrite List.Forall_forall in Hall. specialize (Hall p Hp).
    unfold f. destruct (index_axis_outcome (shape1 rpb)
                          (as_index (frame p - inject_Z 1)%Q))
      as [(_ & Hc) | (Hn & _)]; [exact Hc | contradiction]. }
  rewrite Eidx. cbn [mbind result_bind].
  apply mapM_result_inv in Eidx. apply Forall2_length in Eidx.
  unfold pik_x in Eidx. rewrite length_map in Eidx.
  rewrite Eidx, Nat.eqb_refl. eexists. eexists. reflexivity.
Qed.

(** C3, as the code has it.  When every record of the pick table has
    its frame number, less one, within the along-track axis, [get_pik]
    returns, and for a pick whose column no later pick overwrites it
    stores at that column the maximum over the part of the window
    [[z-2, z+2)] that Python's slice keeps.  A window inside the matrix
    gives the maximum of its four samples.  A window that starts below row
    0 or at or above the last row selects nothing, and the value is
    not-a-number.  A window that only overruns the last row is cut at the
    last row and gives the maximum of the samples left, which is
    not-a-number only if one of them is.  The other columns are as they
    would be without the pick. *)
Theorem get_pik_window_value (orbit : string) (w : world)
    (l1 l2 : list pick) (p : pick) (rpb : matrix) (c : nat) :
  read_pik orbit w = (w, Ok (l1 ++ p :: l2)) ->
  read_rpb orbit w = (w, Ok rpb) ->
  Forall (fun q =>
            (- Z.of_nat (shape1 rpb) <= as_index (frame q - inject_Z 1)%Q
             < Z.of_nat (shape1 rpb))%Z) (l1 ++ p :: l2) ->
  pick_col (shape1 rpb) p = Ok c ->
  (forall p', In p' l2 -> pick_col (shape1 rpb) p' <> Ok c) ->
  let z := pick_z p in
  let top := Z.of_nat (shape0 rpb) in
  exists w' out a',
    get_pik orbit w = (w', Ok out) /\
    w_heap w' !! out = Some a' /\
    (2 <= z <= top - 2 ->
       a' !! c = amax (samples rpb c (seq (Z.to_nat (z - 2)) 4)))%Z /\
    (top - 2 < z < top + 2 ->
       a' !! c =
       amax (samples rpb c
               (seq (Z.to_nat (z - 2)) (Z.to_nat (top + 2 - z)))) /\
       (Forall (fun v => v <> NaN)
          (samples rpb c (seq (Z.to_nat (z - 2)) (Z.to_nat (top + 2 - z)))) ->
        a' !! c <> Some NaN))%Z /\
    (z < 2 \/ top + 2 <= z -> a' !! c = Some NaN)%Z /\
    exists a'',
      extracted (fresh_block w (shape1 rpb)) rpb (l1 ++ l2) = Ok a'' /\
      forall j, j <> c -> a' !! j = a'' !! j.
Proof.
  intros Epik Erpb Hrange Hc Hlater z top.
  pose proof (read_rpb_rows _ _ _ _ Erpb) as (Hrows & _).
  assert (Hz : (-1 <= z)%Z).
  { eapply read_pik_delay_positive; [exact Epik |].
    apply in_or_app. right. left. reflexivity. }
  destruct (get_pik_in_range _ _ _ _ Epik Erpb Hrange) as (w' & out & E).
  pose proof E as E0. apply get_pik_inv in E0.
  destruct E0 as (pik' & rpb' & a' & Epik' & Erpb' & Eset & -> & ->).
  rewrite Epik in Epik'. inversion Epik'; subst pik'.
  rewrite Erpb in Erpb'. inversion Erpb'; subst rpb'.
  eexists. eexists. exists a'. split; [exact E |]. split.
  { cbn [w_heap with_heap]. rewrite lookup_app_r by lia.
    rewrite Nat.sub_diag. reflexivity. }
  fold (extracted (fresh_block w (shape1 rpb)) rpb (l1 ++ p :: l2)) in Eset.
  destruct (extracted_pick _ _ _ _ _ _ c Eset) as (Hval & Hrest).
  { rewrite fresh_block_length. exact Hc. }
  { rewrite fresh_block_length. exact Hlater. }
  rewrite Hval, (pick_val_window _ _ _ Hc). fold z.
  unfold rows in Hrows. subst top. rewrite Hrows.
  split; [| split; [| split]].
  - intros [Hlo Hhi]. rewrite slice_inside by lia. reflexivity.
  - intros [Hlo Hhi]. rewrite slice_overrun by lia.
    remember (Z.to_nat (Z.of_nat 3600 + 2 - z)) as n eqn:En.
    destruct n as [| n]; [lia |].
    split; [reflexivity |].
    intros Hall E'. simpl in E', Hall. inversion E' as [E''].
    inversion Hall as [| v l Hv Hl]; subst.
    revert E''. apply fold_fmax_not_nan; assumption.
  - intros [Hlo | Hhi].
    + rewrite slice_below by lia. reflexivity.
    + rewrite slice_above by lia. reflexivity.
  - exact Hrest.
Qed.

(* ===================================================================== *)
(** * Bounds on powers of ten *)
(* ===================================================================== *)

Lemma Rpower10_pos (x : R) : (0 < Rpower 10 x)%R.
Proof. unfold Rpower. apply exp_pos. Qed.

Lemma Rpower10_ratio_pow (p q : nat) :
  (0 < q)%nat -> (Rpower 10 (INR p / INR q) ^ q = 10 ^ p)%R.
Proof.
  intros Hq.
  rewrite <- (Rpower_pow q) by apply Rpower10_pos.
  rewrite Rpower_mult.
  replace (INR p / INR q * INR q)%R with (INR p).
  - apply Rpower_pow. lra.
  - field. apply not_0_INR. lia.
Qed.

Lemma pow_lt_inv (a b : R) (n : nat) :
  (0 <= b)%R -> (a ^ n < b ^ n)%R -> (a < b)%R.
Proof.
  intros Hb Hlt. destruct (Rlt_dec a b) as [Hab | Hab]; [exact Hab |].
  exfalso. assert (Hle : (b ^ n <= a ^ n)%R) by (apply pow_incr; lra). lra.
Qed.

Lemma Rpower10_shift (x : R) (k : nat) :
  (Rpower 10 x = Rpower 10 (x + INR k) / 10 ^ k)%R.
Proof.
  replace x with (x + INR k - INR k)%R at 1 by ring.
  unfold Rminus. rewrite Rpower_plus, Rpower_Ropp, Rpower_pow by lra.
  reflexivity.
Qed.

(** [10 ** x < B / 10^k] follows from a rational [p/q] above [x + k] with
    [10^p < B^q]. *)
Lemma Rpower10_below (x B : R) (k p q : nat) :
  (0 < q)%nat -> (0 <= B)%R ->
  (x + INR k <= INR p / INR q)%R -> (10 ^ p < B ^ q)%R ->
  (Rpower 10 x < B / 10 ^ k)%R.
Proof.
  intros Hq HB Hx Hpow. rewrite (Rpower10_shift x k).
  apply Rmult_lt_compat_r.
  - apply Rinv_0_lt_compat. apply pow_lt. lra.
  - apply Rle_lt_trans with (Rpower 10 (INR p / INR q)).
    + apply Rle_Rpower; [lra | exact Hx].
    + apply (pow_lt_inv _ _ q HB). rewrite Rpower10_ratio_pow by exact Hq.
      exact Hpow.
Qed.

(** [B / 10^k < 10 ** x] follows from a rational [p/q] below [x + k] with
    [B^q < 10^p]. *)
Lemma Rpower10_above (x B : R) (k p q : nat) :
  (0 < q)%nat ->
  (INR p / INR q <= x + INR k)%R -> (B ^ q < 10 ^ p)%R ->
  (B / 10 ^ k < Rpower 10 x)%R.
Proof.
  intros Hq Hx Hpow. rewrite (Rpower10_shift x k).
  apply Rmult_lt_compat_r.
  - apply Rinv_0_lt_compat. apply pow_lt. lra.
  - apply Rlt_le_trans with (Rpower 10 (INR p / INR q)).
    + apply (pow_lt_inv _ _ q).
      * apply Rlt_le. apply Rpower10_pos.
      * rewrite Rpower10_ratio_pow by exact Hq. exact Hpow.
    + apply Rle_Rpower; [lra | exact Hx].
Qed.

Ltac literal_INR :=
  rewrite !INR_IZR_INZ;
  repeat match goal with
         | |- context [Z.of_nat ?n] =>
             let z := eval vm_compute in (Z.of_nat n) in
             change (Z.of_nat n) with z
         end.

(** The linear amplitude of -142.43 dB lies between 7.559e-8 and
    7.560e-8. *)
Lemma reference_amplitude_bounds :
  (7559 / 10 ^ 11 < Rpower 10 (-14243 / 100 / 20) < 7560 / 10 ^ 11)%R.
Proof.
  split.
  - apply (Rpower10_above _ _ 11 1117 288); [lia | |].
    + literal_INR. lra.
    + rewrite !pow_IZR. apply IZR_lt. vm_compute. reflexivity.
  - apply (Rpower10_below _ _ 11 415 107); [lia | lra | |].
    + literal_INR. lra.
    + rewrite !pow_IZR. apply IZR_lt. vm_compute. reflexivity.
Qed.

(* ===================================================================== *)
(** * The reference scenario and the band *)
(* ===================================================================== *)

Lemma screened_in_band (v : R) :
  (-200 <= v <= 10)%R -> screened (Fin v) = Fin v.
Proof.
  intros [Hlo Hhi]. unfold screened, fgtb. simpl.
  destruct (Rlt_dec v (-200)); [lra |]. simpl.
  destruct (Rlt_dec 10 v); [lra | reflexivity].
Qed.

Lemma amplitude_in_band (v : R) :
  (-200 <= v <= 10)%R ->
  screen_amplitude [Fin v] = [Fin (Rpower 10 (v / 20))].
Proof.
  intros Hv. apply list_eq. intros [| i].
  - rewrite screen_amplitude_lookup. simpl. rewrite (screened_in_band v Hv).
    simpl. destruct (Req_dec_T 20 0); [lra | reflexivity].
  - rewrite screen_amplitude_lookup. reflexivity.
Qed.

(** C6, with the amplitude the code computes.  For the raw value 1.0, no
    range and [abs_calib = -142.43], [calibration] returns
    [10*log10(1.0) + (-142.43) + 0 = -142.43] dB; the value lies inside the
    band, so the screening keeps it, and the linear amplitude
    [10^(-142.43/20)] lies between 7.559e-8 and 7.560e-8. *)
Theorem calibration_reference_scenario (w : world) (val : ref) (wl : R) :
  w_heap w !! val = Some [Fin 1] ->
  snd (calibration val wl None Params.abs_calib w) = Ok [Fin (-14243 / 100)]
  /\ fltb (Fin (-14243 / 100)) (Fin (-200)) = false
  /\ fgtb (Fin (-14243 / 100)) (Fin 10) = false
  /\ exists y,
       screen_amplitude [Fin (-14243 / 100)] = [Fin y] /\
       (7559 / 10 ^ 11 < y < 7560 / 10 ^ 11)%R.
Proof.
  intros Ha. split; [| split; [| split]].
  - rewrite (calibration_unfold _ _ _ _ _ _ Ha). simpl.
    destruct (Req_dec_T 1 0) as [H10 | _]; [lra |].
    unfold decibel. rewrite log10_one. simpl.
    do 2 f_equal. f_equal. lra.
  - simpl. destruct (Rlt_dec (-14243 / 100) (-200)); [lra | reflexivity].
  - unfold fgtb. simpl.
    destruct (Rlt_dec 10 (-14243 / 100)); [lra | reflexivity].
  - exists (Rpower 10 (-14243 / 100 / 20)). split.
    + apply amplitude_in_band. lra.
    + exact reference_amplitude_bounds.
Qed.

(** C6 as stated fails: the amplitude of the scenario does not round to
    7.567e-8. *)
Lemma reference_amplitude_not_7567 :
  exists y,
    screen_amplitude [Fin (-14243 / 100)] = [Fin y] /\
    ~ (75665 / 10 ^ 12 <= y < 75675 / 10 ^ 12)%R.
Proof.
  exists (Rpower 10 (-14243 / 100 / 20)). split.
  - apply amplitude_in_band. lra.
  - pose proof reference_amplitude_bounds as [_ Hup].
    intros [Hlo _].
    assert (E : (7560 / 10 ^ 11 < 75665 / 10 ^ 12)%R).
    { replace (10 ^ 12)%R with (10 ^ 11 * 10)%R by (simpl; ring).
      assert (Hp : (0 < 10 ^ 11)%R) by (apply pow_lt; lra).
      apply Rmult_lt_reg_r with (10 ^ 11 * 10)%R; [lra |].
      field_simplify; lra. }
    lra.
Qed.


(* ===================================================================== *)
(** * The example orbit *)
(* ===================================================================== *)

Import Fixture.

Lemma fixture_rpb (g : npfloat) :
  read_rpb orbit_id (world0 g) = (world0 g, Ok waveform).
Proof. reflexivity. Qed.

Lemma fixture_pik (g : npfloat) :
  read_pik orbit_id (world0 g) = (world0 g, Ok [pick0]).
Proof. reflexivity. Qed.

Lemma fixture_aux (g : npfloat) :
  get_aux orbit_id (world0 g) = (world0 g, Ok resampled).
Proof. reflexivity. Qed.

Lemma fixture_cell (r c : nat) :
  r < rows -> c < 2 -> cell waveform r c = Fin 1.
Proof.
  intros Hr Hc. unfold cell, waveform, rpb_values. cbn [flat shape0].
  rewrite lookup_replicate_2; [reflexivity |]. unfold rows in *. lia.
Qed.

Lemma fixture_pick_col : pick_col 2 pick0 = Ok 0.
Proof. reflexivity. Qed.

Lemma fixture_pick_z : pick_z pick0 = 3599%Z.
Proof. vm_compute. reflexivity. Qed.

Lemma fmax_same (v : npfloat) : fmax v v = v.
Proof.
  unfold fmax. destruct (is_nan v); [reflexivity |].
  destruct (fltb v v); reflexivity.
Qed.

(** The pick of the example orbit targets sample 3599 of 3600: its window
    [[3597, 3601)] overruns the matrix, the slice keeps rows 3597 to 3599,
    and the echo value is their maximum. *)
Lemma fixture_pick_val : pick_val waveform pick0 = Fin 1.
Proof.
  rewrite (pick_val_window waveform pick0 0 fixture_pick_col).
  rewrite fixture_pick_z.
  change (shape0 waveform) with 3600.
  rewrite slice_overrun by lia.
  change (Z.to_nat (Z.of_nat 3600 + 2 - 3599)) with 3.
  cbn [seq samples map amax fold_left].
  rewrite !fixture_cell by (unfold rows; lia).
  rewrite !fmax_same. reflexivity.
Qed.

Lemma fixture_get_pik (g : npfloat) :
  get_pik orbit_id (world0 g) = (world_pik g, Ok 0).
Proof.
  rewrite (get_pik_unfold _ _ _ _ (fixture_pik g) (fixture_rpb g)).
  assert (E : setitem_list (fresh_block (world0 g) (shape1 waveform))
                (pik_x [pick0]) (pik_echo waveform [pick0])
              = Ok (echo g)).
  { apply setitem_picks. exists [0]. split.
    - repeat constructor.
    - cbn [map zip_with]. rewrite fixture_pick_val. reflexivity. }
  rewrite E. reflexivity.
Qed.

Lemma fixture_get_srf (g : npfloat) (save : bool) :
  get_srf orbit_id save (world0 g) = (world_srf g save, Ok (track g)).
Proof.
  pose proof (get_srf_run orbit_id save (world0 g) (world_pik g) resampled 0
                [range0; range0] (echo g) (fixture_aux g) (fixture_get_pik g)
                eq_refl eq_refl eq_refl eq_refl) as E.
  cbv zeta in E. rewrite E. destruct save; reflexivity.
Qed.

Lemma log10_between (X : R) (a b : nat) :
  (10 ^ a < X)%R -> (X < 10 ^ b)%R -> (INR a < ln X / ln 10 < INR b)%R.
Proof.
  intros Ha Hb. pose proof ln10_pos as H10.
  assert (Hpa : (0 < 10 ^ a)%R) by (apply pow_lt; lra).
  assert (HX : (0 < X)%R) by lra.
  assert (La : (INR a * ln 10 < ln X)%R).
  { rewrite <- ln_pow by lra. apply ln_increasing; assumption. }
  assert (Lb : (ln X < INR b * ln 10)%R).
  { rewrite <- ln_pow by lra. apply ln_increasing; assumption. }
  split.
  - apply Rmult_lt_reg_r with (ln 10); [exact H10 |].
    replace (ln X / ln 10 * ln 10)%R with (ln X) by (field; lra). exact La.
  - apply Rmult_lt_reg_r with (ln 10); [exact H10 |].
    replace (ln X / ln 10 * ln 10)%R with (ln X) by (field; lra). exact Lb.
Qed.

Lemma PI_gt_3 : (3 < PI)%R.
Proof. pose proof PI2_3_2. lra. Qed.

(** The geometric loss at the range of the example orbit: between 120 and
    140 dB. *)
Lemma fixture_range_loss :
  exists L, range_loss range0 = Fin (20 * L) /\ (6 < L < 7)%R.
Proof.
  pose proof PI_gt_3 as Hlo. pose proof PI_4 as Hhi.
  exists (ln (8 * PI * (3700 * 1000 + - (3400000))) / ln 10)%R. split.
  - unfold range_loss, range0. cbn [fmul log10].
    rewrite Rsign_pos by nra. reflexivity.
  - pose proof (log10_between (8 * PI * (3700 * 1000 + - (3400000))) 6 7) as Hb.
    replace (INR 6) with 6%R in Hb by (simpl; lra).
    replace (INR 7) with 7%R in Hb by (simpl; lra).
    apply Hb; simpl; nra.
Qed.

Lemma fixture_decibel_one :
  decibel Params.abs_calib (Fin 1) = Fin (10 * 0 + -14243 / 100).
Proof. unfold decibel. rewrite log10_one. reflexivity. Qed.

Lemma zero_to_nan_cons (v : npfloat) (a : ndarray) :
  zero_to_nan (v :: a) = (if feqb v (Fin 0) then NaN else v) :: zero_to_nan a.
Proof. reflexivity. Qed.

Lemma feqb_one_zero : feqb (Fin 1) (Fin 0) = false.
Proof. simpl. destruct (Req_dec_T 1 0); [lra | reflexivity]. Qed.

Lemma feqb_zero_zero : feqb (Fin 0) (Fin 0) = true.
Proof. apply feqb_zero_true. reflexivity. Qed.

(** With 1.0 in the uninitialised cell, the unpicked frame of the example
    orbit gets a finite amplitude. *)
Lemma fixture_amp_one :
  exists y, screen_amplitude (calibrated (echo (Fin 1)) [range0; range0]) !! 1
            = Some (Fin y).
Proof.
  destruct fixture_range_loss as (L & EL & HL).
  exists (Rpower 10 ((10 * 0 + -14243 / 100 + 20 * L) / 20)).
  rewrite screen_amplitude_lookup. unfold calibrated, echo.
  rewrite !zero_to_nan_cons, feqb_one_zero. cbn [map zip_with].
  rewrite fixture_decibel_one, EL. cbn [lookup list_lookup fadd option_map].
  rewrite screened_in_band by lra. simpl.
  destruct (Req_dec_T 20 0); [lra | reflexivity].
Qed.

(** With 0.0 in the uninitialised cell, the amplitude there is missing. *)
Lemma fixture_amp_zero :
  screen_amplitude (calibrated (echo (Fin 0)) [range0; range0]) !! 1 = Some NaN.
Proof.
  rewrite screen_amplitude_lookup. unfold calibrated, echo.
  rewrite !zero_to_nan_cons, feqb_one_zero, feqb_zero_zero.
  reflexivity.
Qed.

Lemma fixture_track_amp (g : npfloat) :
  column (track g) "amp" =
  Ok (screen_amplitude (calibrated (echo g) [range0; range0])).
Proof. unfold column, track. cbn [df_cols]. rewrite assoc_put_same. reflexivity. Qed.

(** C1 on the example orbit.  Frame 2 (index 1) has no pick, and
    [get_pik] leaves there what the block of [np.empty] held, here 1.0,
    not zero: the output is allocated with [np.empty], not [np.zeros]. *)
Theorem get_pik_unpicked_not_zero :
  let run := get_pik orbit_id (world0 (Fin 1)) in
  read_pik orbit_id (world0 (Fin 1)) = (world0 (Fin 1), Ok [pick0]) /\
  pick_col 2 pick0 = Ok 0 /\
  snd run = Ok 0 /\
  w_heap (fst run) !! 0 = Some [Fin 1; Fin 1] /\
  Fin 1 <> Fin 0.
Proof.
  cbv zeta. rewrite fixture_get_pik.
  repeat split; try reflexivity.
  intros E. inversion E. lra.
Qed.

(** C3 as stated fails when the window overruns the last row.  The pick
    of the example orbit has [z = 3599] in a matrix of 3600 rows, so the
    window [[3597, 3601)] falls outside the matrix, yet the value stored
    at its index is the maximum of rows 3597 to 3599, not not-a-number. *)
Lemma get_pik_overrun_not_nan :
  let run := get_pik orbit_id (world0 (Fin 0)) in
  pick_z pick0 = 3599%Z /\ shape0 waveform = 3600 /\
  pick_col (shape1 waveform) pick0 = Ok 0 /\
  snd run = Ok 0 /\
  w_heap (fst run) !! 0 = Some [Fin 1; Fin 0] /\
  Fin 1 <> NaN.
Proof.
  cbv zeta. rewrite fixture_get_pik.
  split; [exact fixture_pick_z |].
  repeat split; try reflexivity. discriminate.
Qed.

(** C8 on the example orbit.  Two runs of [get_srf] on the same files,
    in processes that differ only in what uninitialised memory holds (0.0
    or 1.0), return different tables and write different files: the
    amplitude of the unpicked frame is missing in one and finite in the
    other. *)
Theorem get_srf_depends_on_memory :
  let w0 := world0 (Fin 0) in
  let w1 := world0 (Fin 1) in
  (w_rpb w0 = w_rpb w1 /\ w_pik w0 = w_pik w1 /\ w_aux w0 = w_aux w1 /\
   w_heap w0 = w_heap w1 /\ w_files w0 = w_files w1 /\ w_cwd w0 = w_cwd w1) /\
  exists t0 t1 amp0 amp1 y,
    snd (get_srf orbit_id true w0) = Ok t0 /\
    snd (get_srf orbit_id true w1) = Ok t1 /\
    column t0 "amp" = Ok amp0 /\ column t1 "amp" = Ok amp1 /\
    amp0 !! 1 = Some NaN /\ amp1 !! 1 = Some (Fin y) /\
    t0 <> t1 /\
    w_files (fst (get_srf orbit_id true w0))
      <> w_files (fst (get_srf orbit_id true w1)).
Proof.
  cbv zeta. split; [repeat split |].
  destruct fixture_amp_one as (y & Hy).
  assert (Hne : track (Fin 0) <> track (Fin 1)).
  { intros E.
    assert (Ea : screen_amplitude (calibrated (echo (Fin 0)) [range0; range0])
                 = screen_amplitude (calibrated (echo (Fin 1)) [range0; range0])).
    { pose proof (fixture_track_amp (Fin 0)) as E0.
      rewrite E, fixture_track_amp in E0. congruence. }
    pose proof fixture_amp_zero as Hz. rewrite Ea, Hy in Hz. discriminate. }
  exists (track (Fin 0)), (track (Fin 1)),
    (screen_amplitude (calibrated (echo (Fin 0)) [range0; range0])),
    (screen_amplitude (calibrated (echo (Fin 1)) [range0; range0])), y.
  rewrite !fixture_get_srf. cbn [fst snd].
  split; [reflexivity |]. split; [reflexivity |].
  split; [apply fixture_track_amp |]. split; [apply fixture_track_amp |].
  split; [exact fixture_amp_zero |]. split; [exact Hy |].
  split; [exact Hne |].
  unfold world_srf. cbn [w_files with_files]. intros E.
  apply Hne. unfold srf_entry in E. congruence.
Qed.

(* ===================================================================== *)
(** * The theorems at the example orbit *)
(* ===================================================================== *)


Lemma get_pik_window_value_witness :
  read_pik orbit_id (world0 (Fin 0)) = (world0 (Fin 0), Ok ([] ++ pick0 :: [])) /\
  read_rpb orbit_id (world0 (Fin 0)) = (world0 (Fin 0), Ok waveform) /\
  Forall (fun q =>
            (- Z.of_nat (shape1 waveform)
             <= as_index (frame q - inject_Z 1)%Q
             < Z.of_nat (shape1 waveform))%Z) ([] ++ pick0 :: []) /\
  pick_col (shape1 waveform) pick0 = Ok 0 /\
  let z := pick_z pick0 in
  let top := Z.of_nat (shape0 waveform) in
  exists w' out a',
    get_pik orbit_id (world0 (Fin 0)) = (w', Ok out) /\
    w_heap w' !! out = Some a' /\
    (2 <= z <= top - 2 ->
       a' !! 0%nat = amax (samples waveform 0 (seq (Z.to_nat (z - 2)) 4)))%Z /\
    (top - 2 < z < top + 2 ->
       a' !! 0%nat =
       amax (samples waveform 0
               (seq (Z.to_nat (z - 2)) (Z.to_nat (top + 2 - z)))) /\
       (Forall (fun v => v <> NaN)
          (samples waveform 0
             (seq (Z.to_nat (z - 2)) (Z.to_nat (top + 2 - z)))) ->
        a' !! 0%nat <> Some NaN))%Z /\
    (z < 2 \/ top + 2 <= z -> a' !! 0%nat = Some NaN)%Z /\
    exists a'',
      extracted (fresh_block (world0 (Fin 0)) (shape1 waveform)) waveform
        ([] ++ []) = Ok a'' /\
      forall j, j <> 0 -> a' !! j = a'' !! j.
Proof.
  assert (Hrange :
    Forall (fun q =>
              (- Z.of_nat (shape1 waveform)
               <= as_index (frame q - inject_Z 1)%Q
               < Z.of_nat (shape1 waveform))%Z) ([] ++ pick0 :: [])).
  { constructor; [| constructor]. vm_compute. split; [discriminate | reflexivity]. }
  split; [apply fixture_pik |].
  split; [apply fixture_rpb |].
  split; [exact Hrange |].
  split; [apply fixture_pick_col |].
  apply (get_pik_window_value orbit_id (world0 (Fin 0)) [] [] pick0 waveform 0).
  - apply fixture_pik.
  - apply fixture_rpb.
  - exact Hrange.
  - apply fixture_pick_col.
  - intros p' [].
Defined.

Lemma calibration_zero_is_nan_witness :
  w_heap world_zero !! 0 = Some [Fin 0; Fin 1] /\
  [Fin 0; Fin 1] !! 0 = Some (Fin 0) /\
  (forall out v,
      snd (calibration 0 15 (Some (Array [range0; range0])) Params.abs_calib
             world_zero) = Ok out ->
      out !! 0 = Some v -> v = NaN /\ v <> NInf) /\
  (length [range0; range0] = length [Fin 0; Fin 1] ->
   exists out,
     snd (calibration 0 15 (Some (Array [range0; range0])) Params.abs_calib
            world_zero) = Ok out /\
     length out = length [Fin 0; Fin 1] /\ out !! 0 = Some NaN).
Proof.
  split; [reflexivity |]. split; [reflexivity |].
  apply (calibration_zero_is_nan world_zero 0 [Fin 0; Fin 1] 15
           (Some (Array [range0; range0])) Params.abs_calib 0);
    reflexivity.
Defined.

Lemma calibration_mutates_val_witness :
  w_heap world_zero !! 0 = Some [Fin 0; Fin 1] /\
  exists a',
    w_heap (fst (calibration 0 15 None Params.abs_calib world_zero)) !! 0
      = Some a' /\
    length a' = length [Fin 0; Fin 1] /\
    (forall i, [Fin 0; Fin 1] !! i = Some (Fin 0) -> a' !! i = Some NaN) /\
    (forall i v, [Fin 0; Fin 1] !! i = Some v -> v <> Fin 0 -> a' !! i = Some v) /\
    (In (Fin 0) [Fin 0; Fin 1] -> a' <> [Fin 0; Fin 1]).
Proof.
  split; [reflexivity |].
  apply (calibration_mutates_val world_zero 0 [Fin 0; Fin 1] 15 None
           Params.abs_calib).
  reflexivity.
Defined.

Lemma calibration_reference_scenario_witness :
  w_heap world_one !! 0 = Some [Fin 1] /\
  snd (calibration 0 15 None Params.abs_calib world_one)
    = Ok [Fin (-14243 / 100)] /\
  fltb (Fin (-14243 / 100)) (Fin (-200)) = false /\
  fgtb (Fin (-14243 / 100)) (Fin 10) = false /\
  exists y,
    screen_amplitude [Fin (-14243 / 100)] = [Fin y] /\
    (7559 / 10 ^ 11 < y < 7560 / 10 ^ 11)%R.
Proof.
  split; [reflexivity |].
  apply (calibration_reference_scenario world_one 0 15).
  reflexivity.
Defined.

Lemma get_srf_shape_witness :
  get_srf orbit_id true (world0 (Fin 1))
    = (world_srf (Fin 1) true, Ok (track (Fin 1))) /\
  exists rpb,
    read_rpb orbit_id (world0 (Fin 1)) = (world0 (Fin 1), Ok rpb) /\
    df_len (track (Fin 1)) = shape1 rpb /\
    Forall (fun kc => length (snd kc) = shape1 rpb) (df_cols (track (Fin 1))).
Proof.
  split; [apply fixture_get_srf |].
  apply (get_srf_shape orbit_id true (world0 (Fin 1)) (world_srf (Fin 1) true)
           (track (Fin 1))).
  apply fixture_get_srf.
Defined.

Lemma inline_rsr_persists_track_witness :
  get_srf orbit_id true (world0 (Fin 1))
    = (world_srf (Fin 1) true, Ok (track (Fin 1))) /\
  let run := inline_rsr orbit_id (Fin 1000) (Fin 250) false (world0 (Fin 1)) in
  (exists extra,
      w_files (fst run)
      = w_files (world0 (Fin 1)) ++ [srf_entry orbit_id (track (Fin 1))] ++ extra) /\
  (false = false ->
   w_files (fst run)
   = w_files (world0 (Fin 1)) ++ [srf_entry orbit_id (track (Fin 1))]) /\
  (forall b, snd run = Ok b ->
      w_files (fst run) =
      w_files (world0 (Fin 1)) ++ [srf_entry orbit_id (track (Fin 1))]
        ++ (if false then rsr_entries (w_cwd (world0 (Fin 1))) orbit_id b
            else [])).
Proof.
  split; [apply fixture_get_srf |].
  apply (inline_rsr_persists_track orbit_id (Fin 1000) (Fin 250) false
           (world0 (Fin 1)) (world_srf (Fin 1) true) (track (Fin 1))).
  apply fixture_get_srf.
Defined.

(* ===================================================================== *)
(** * The abscissae of the Telemetry Resampler *)
(* ===================================================================== *)

(** [get_aux] places native sample [i] of [m >= 2] at
    [i * (n - 1) / (m - 1)] on the along-track axis of length [n]. *)
Lemma linspace_position (n m i : nat) :
  2 <= m -> i < m ->
  linspace 0 (INR n - 1) m !! i
  = Some (Fin (INR i * (INR n - 1) / INR (m - 1))).
Proof.
  intros Hm Hi. destruct m as [| [| m']]; [lia | lia |].
  unfold linspace. rewrite map_lookup, lookup_seq_lt by exact Hi.
  cbn [option_map Nat.add]. do 2 f_equal.
  replace (S (S m') - 1) with (S m') by lia.
  field. apply not_0_INR. lia.
Qed.

(* ===================================================================== *)
(** * The format readers *)
(* ===================================================================== *)

(** X1.  The matrix [read_rpb] returns has 3600 rows and is a
    rearrangement of the file: the sample [r] of frame [c] is the value at
    offset [c * 3600 + r] of the file, and every value of the file, at
    offset [k], is the cell of row [k mod 3600] and column [k / 3600]. *)
Theorem read_rpb_layout (orbit : string) (w w' : world) (rpb : matrix) :
  read_rpb orbit w = (w', Ok rpb) ->
  w' = w /\ shape0 rpb = 3600 /\
  exists a,
    w_rpb w orbit = Some a /\
    length a = shape1 rpb * 3600 /\
    (forall r c, r < 3600 -> c < shape1 rpb ->
       a !! (c * 3600 + r) = Some (cell rpb r c)) /\
    (forall k, k < length a ->
       k / 3600 < shape1 rpb /\
       a !! k = Some (cell rpb (k mod 3600) (k / 3600))).
Proof.
  unfold read_rpb, mbind, M_bind.
  destruct (w_rpb w orbit) as [a |] eqn:Ea; cbn [from_option];
    [| discriminate].
  destruct (Nat.eqb (length a) _) eqn:El; [| discriminate].
  intros E. inversion E; subst; clear E. apply Nat.eqb_eq in El.
  unfold rows in *. split; [reflexivity |]. split; [reflexivity |].
  exists a. split; [reflexivity |]. cbn [shape1 shape0].
  split; [exact El |].
  assert (Hcell : forall r c, r < 3600 -> c < length a / 3600 ->
            a !! (c * 3600 + r)
            = Some (cell (mkMatrix 3600 (length a / 3600) a) r c)).
  { intros r c Hr Hc. unfold cell. cbn [flat shape0].
    destruct (a !! (c * 3600 + r)) as [v |] eqn:Ev; [reflexivity |].
    exfalso. apply lookup_ge_None in Ev.
    remember (length a / 3600) as q. lia. }
  split; [exact Hcell |].
  intros k Hk.
  assert (Hq : k / 3600 < length a / 3600).
  { apply Nat.Div0.div_lt_upper_bound. rewrite Nat.mul_comm, <- El. exact Hk. }
  split; [exact Hq |].
  rewrite <- Hcell; [| apply Nat.mod_upper_bound; lia | exact Hq].
  f_equal. rewrite (Nat.div_mod_eq k 3600) at 1. lia.
Qed.

(** X2.  [read_rpb] never changes the process; it raises when the
    waveform file is missing, raises [ValueError] when the number of values
    in the file is not a multiple of 3600, and returns otherwise, an empty
    file giving a matrix without frames. *)
Theorem read_rpb_outcomes (orbit : string) (w : world) :
  (w_rpb w orbit = None -> exists e, read_rpb orbit w = (w, Raise e)) /\
  (forall a, w_rpb w orbit = Some a ->
     (length a mod 3600 <> 0 -> read_rpb orbit w = (w, Raise ValueError)) /\
     (length a mod 3600 = 0 ->
      read_rpb orbit w = (w, Ok (mkMatrix 3600 (length a / 3600) a))) /\
     (a = [] -> read_rpb orbit w = (w, Ok (mkMatrix 3600 0 [])))).
Proof.
  unfold read_rpb, mbind, M_bind, rows. split.
  - intros ->. exists IOError. reflexivity.
  - intros a ->. cbn [from_option].
    pose proof (Nat.div_mod_eq (length a) 3600) as Hdm.
    split; [| split].
    + intros Hm. destruct (Nat.eqb_spec (length a) (length a / 3600 * 3600));
        [lia | reflexivity].
    + intros Hm. destruct (Nat.eqb_spec (length a) (length a / 3600 * 3600));
        [reflexivity | lia].
    + intros ->. reflexivity.
Qed.

(** X3.  [read_pik] never changes the process.  On a pick file of one
    data line or none it raises, the array read having one dimension only.
    On a file of two lines or more it returns one row for each line with a
    positive fifth column, in the order of the file, with the first four
    columns of the line as [orbit], [frame], [x] and [y]; the other lines
    are dropped, so the table is empty exactly when no line has a positive
    fifth column. *)
Theorem read_pik_rows (orbit : string) (w : world) (lines : list pik_line) :
  w_pik w orbit = Some lines ->
  (length lines < 2 -> exists e, read_pik orbit w = (w, Raise e)) /\
  (2 <= length lines ->
   exists pik,
     read_pik orbit w = (w, Ok pik) /\
     map (fun p => (Raw.orbit p, frame p, x p, y p)) pik
     = map (fun l => (col0 l, col1 l, col2 l, col3 l))
         (List.filter (fun l => negb (Qle_bool (col4 l) (inject_Z 0))) lines) /\
     length pik <= length lines /\
     (Forall (fun l => (col4 l <= 0)%Q) lines <-> pik = [])).
Proof.
  intros Hlines. unfold read_pik, mbind, M_bind. rewrite Hlines.
  cbn [from_option]. split.
  - intros Hlt. exists IndexError.
    destruct (Nat.ltb_spec (length lines) 2); [reflexivity | lia].
  - intros Hge. destruct (Nat.ltb_spec (length lines) 2); [lia |].
    set (keep := fun l : pik_line => negb (Qle_bool (col4 l) (inject_Z 0))).
    eexists. split; [reflexivity |].
    split; [| split; [| split]].
    + rewrite map_map. reflexivity.
    + rewrite length_map. apply List.filter_length_le.
    + intros Hall.
      replace (List.filter keep lines) with (@nil pik_line); [reflexivity |].
      symmetry. clear - Hall. induction Hall as [| l ls Hl _ IH]; [reflexivity |].
      cbn [List.filter]. unfold keep at 1.
      apply Qle_bool_iff in Hl. change (inject_Z 0) with 0%Q.
      rewrite Hl. exact IH.
    + intros Hnil. apply List.Forall_forall. intros l Hl.
      destruct (Qle_bool (col4 l) 0) eqn:Hle; [apply Qle_bool_iff; exact Hle |].
      assert (Hin : In l (List.filter keep lines)).
      { apply filter_In. split; [exact Hl |]. unfold keep.
        change (inject_Z 0) with 0%Q. rewrite Hle. reflexivity. }
      apply (in_map (fun l =>
               mkPick (col0 l) (col1 l) (col2 l) (col3 l)
                      (col4 l / inject_Z 10)
                      (col4 l / inject_Z 10 / (75 # 2) * inject_Z 1000))) in Hin.
      rewrite Hnil in Hin. destruct Hin.
Qed.

(* ===================================================================== *)
(** * More on the Echo Extractor *)
(* ===================================================================== *)

Lemma mapM_result_raise {A B} (f : A -> result B) (l : list A) (e : exn) :
  Forall (fun a => forall e', f a = Raise e' -> e' = e) l ->
  Exists (fun a => f a = Raise e) l ->
  mapM f l = Raise e.
Proof.
  intros Hall Hex. induction Hex as [a l Ea | a l _ IH].
  - simpl. rewrite Ea. reflexivity.
  - inversion Hall as [| a' l' Ha Hl]; subst. simpl.
    destruct (f a) as [b | e'] eqn:Ea.
    + simpl. rewrite (IH Hl). reflexivity.
    + rewrite (Ha e' eq_refl). reflexivity.
Qed.

(** X4.  Once the two files are read, [get_pik] returns exactly when
    every pick has its frame number, less one, in [[-N, N)] for the [N]
    frames of the matrix.  A pick outside makes the assignment
    [out[x] = echo] raise [IndexError], which nothing catches: no array is
    returned, whatever the other picks are, and no file is written. *)
Theorem get_pik_frame_range (orbit : string) (w : world) (pik : list pick)
    (rpb : matrix) :
  read_pik orbit w = (w, Ok pik) ->
  read_rpb orbit w = (w, Ok rpb) ->
  let in_range (p : pick) :=
    (- Z.of_nat (shape1 rpb) <= as_index (frame p - inject_Z 1)%Q
     < Z.of_nat (shape1 rpb))%Z in
  (Forall in_range pik -> exists w' out, get_pik orbit w = (w', Ok out)) /\
  (Exists (fun p => ~ in_range p) pik ->
   snd (get_pik orbit w) = Raise IndexError /\
   w_files (fst (get_pik orbit w)) = w_files w).
Proof.
  intros Epik Erpb in_range.
  rewrite (get_pik_unfold _ _ _ _ Epik Erpb).
  unfold setitem_list. rewrite fresh_block_length, pik_echo_length.
  set (f := fun q => index_axis (shape1 rpb) (as_index q)).
  split.
  - intros Hall.
    destruct (mapM_result_total f (pik_x pik)) as (idx & Eidx).
    { unfold pik_x. apply List.Forall_forall. intros q Hq.
      apply in_map_iff in Hq. destruct Hq as (p & <- & Hp).
      rewrite List.Forall_forall in Hall. specialize (Hall p Hp).
      unfold f. destruct (index_axis_outcome (shape1 rpb)
                            (as_index (frame p - inject_Z 1)%Q))
        as [(_ & Hc) | (Hn & _)]; [exact Hc | contradiction]. }
    rewrite Eidx. cbn [mbind result_bind].
    apply mapM_result_inv in Eidx. apply Forall2_length in Eidx.
    unfold pik_x in Eidx. rewrite length_map in Eidx.
    rewrite Eidx, Nat.eqb_refl. eexists. eexists. reflexivity.
  - intros Hex.
    rewrite (mapM_result_raise f (pik_x pik) IndexError).
    + split; reflexivity.
    + apply List.Forall_forall. intros q _ e' Ee. unfold f in Ee.
      destruct (index_axis_outcome (shape1 rpb) (as_index q))
        as [(_ & c & Hc) | (_ & Hr)]; congruence.
    + unfold pik_x. apply List.Exists_exists.
      apply List.Exists_exists in Hex. destruct Hex as (p & Hp & Hout).
      exists (frame p - inject_Z 1)%Q.
      split; [apply (in_map (fun p => (frame p - inject_Z 1)%Q)); exact Hp |].
      unfold f. destruct (index_axis_outcome (shape1 rpb)
                            (as_index (frame p - inject_Z 1)%Q))
        as [(Hin & _) | (_ & Hr)]; [contradiction | exact Hr].
Qed.

Lemma as_index_integer (f : Z) :
  as_index (inject_Z f - inject_Z 1)%Q = (f - 1)%Z.
Proof.
  unfold as_index. simpl. rewrite Z.quot_1_r. lia.
Qed.

Lemma index_axis_wraps (n : nat) (i : Z) :
  (- Z.of_nat n <= i < 0)%Z ->
  index_axis n i = Ok (Z.to_nat (Z.of_nat n + i)).
Proof.
  intros Hi. unfold index_axis.
  destruct (Z.leb_spec 0 i); [lia |]. simpl.
  destruct (Z.leb_spec (- Z.of_nat n) i); [| lia].
  destruct (Z.ltb_spec i 0); [| lia]. simpl.
  f_equal. lia.
Qed.

(** X5.  Frame numbers count from 1, and a frame number [f] between
    [1 - N] and 0 is taken from the end of the along-track axis: such a
    pick, when no later pick overwrites it, is written at index
    [N + f - 1], so a pick on frame 0 lands on the last index. *)
Theorem get_pik_frame_wraps (orbit : string) (w w' : world) (out : ref)
    (l1 l2 : list pick) (p : pick) (rpb : matrix) (f : Z) :
  get_pik orbit w = (w', Ok out) ->
  read_pik orbit w = (w, Ok (l1 ++ p :: l2)) ->
  read_rpb orbit w = (w, Ok rpb) ->
  frame p = inject_Z f ->
  (1 - Z.of_nat (shape1 rpb) <= f <= 0)%Z ->
  let c := Z.to_nat (Z.of_nat (shape1 rpb) + f - 1) in
  (forall p', In p' l2 -> pick_col (shape1 rpb) p' <> Ok c) ->
  pick_col (shape1 rpb) p = Ok c /\
  (f = 0%Z -> c = shape1 rpb - 1) /\
  exists a',
    w_heap w' !! out = Some a' /\ a' !! c = Some (pick_val rpb p).
Proof.
  intros E Epik Erpb Hf Hrange c Hlater.
  assert (Hc : pick_col (shape1 rpb) p = Ok c).
  { unfold pick_col. rewrite Hf, as_index_integer.
    rewrite index_axis_wraps by lia. unfold c. f_equal. lia. }
  split; [exact Hc |]. split; [unfold c; lia |].
  apply get_pik_inv in E.
  destruct E as (pik' & rpb' & a' & Epik' & Erpb' & Eset & -> & ->).
  rewrite Epik in Epik'. injection Epik' as <-.
  rewrite Erpb in Erpb'. injection Erpb' as <-.
  exists a'. split.
  - cbn [w_heap with_heap]. rewrite lookup_app_r by lia.
    rewrite Nat.sub_diag. reflexivity.
  - fold (extracted (fresh_block w (shape1 rpb)) rpb (l1 ++ p :: l2)) in Eset.
    destruct (extracted_pick _ _ _ _ _ _ c Eset) as (Hval & _).
    + rewrite fresh_block_length. exact Hc.
    + rewrite fresh_block_length. exact Hlater.
    + exact Hval.
Qed.

Lemma scatter_forgets (writes : list (nat * npfloat)) (o1 o2 : ndarray)
    (j : nat) :
  length o1 = length o2 ->
  In j (map fst writes) \/ o1 !! j = o2 !! j ->
  scatter o1 writes !! j = scatter o2 writes !! j.
Proof.
  revert o1 o2. induction writes as [| [i v] ws IH]; intros o1 o2 Hl Hj.
  - destruct Hj as [[] | Hj]. exact Hj.
  - unfold scatter in *. cbn [fold_left fst snd].
    apply IH; [rewrite !length_insert; exact Hl |].
    destruct (Nat.eq_dec i j) as [-> | Hne].
    + right. destruct (Nat.lt_ge_cases j (length o1)) as [Hlt | Hge].
      * rewrite !list_lookup_insert_eq by lia. reflexivity.
      * rewrite !list_insert_ge by lia.
        rewrite !(proj2 (lookup_ge_None _ _)) by lia. reflexivity.
    + destruct Hj as [Hj | Hj].
      * left. simpl in Hj. destruct Hj as [Hj | Hj]; [contradiction | exact Hj].
      * right. rewrite !list_lookup_insert_ne by exact Hne. exact Hj.
Qed.

Lemma Forall2_In_l {A B} (P : A -> B -> Prop) (l : list A) (r : list B) (a : A) :
  Forall2 P l r -> In a l -> exists b, In b r /\ P a b.
Proof.
  induction 1 as [| a' b l r Hab _ IH]; simpl; [tauto |].
  intros [-> | Hin].
  - exists b. split; [left; reflexivity | exact Hab].
  - destruct (IH Hin) as (b0 & Hb0 & HP). exists b0. split; [right |]; assumption.
Qed.

Lemma zip_fst_same_length {A B} (l : list A) (r : list B) :
  length l = length r -> map fst (zip l r) = l.
Proof.
  revert r. induction l as [| a l IH]; intros [| b r] Hl; simpl in *;
    try discriminate; [reflexivity |].
  f_equal. apply IH. lia.
Qed.

(** X6.  When every frame of the matrix has a pick, the array [get_pik]
    returns does not depend on what the block of [np.empty] held: two
    processes that read the same pick table and waveform matrix get equal
    arrays. *)
Theorem get_pik_covered_ignores_memory (orbit : string) (w1 w2 w1' w2' : world)
    (out1 out2 : ref) (pik : list pick) (rpb : matrix) :
  read_pik orbit w1 = (w1, Ok pik) ->
  read_pik orbit w2 = (w2, Ok pik) ->
  read_rpb orbit w1 = (w1, Ok rpb) ->
  read_rpb orbit w2 = (w2, Ok rpb) ->
  get_pik orbit w1 = (w1', Ok out1) ->
  get_pik orbit w2 = (w2', Ok out2) ->
  (forall j, j < shape1 rpb ->
     exists p, In p pik /\ pick_col (shape1 rpb) p = Ok j) ->
  exists a,
    w_heap w1' !! out1 = Some a /\ w_heap w2' !! out2 = Some a /\
    length a = shape1 rpb.
Proof.
  intros Ep1 Ep2 Er1 Er2 E1 E2 Hcov.
  apply get_pik_inv in E1.
  destruct E1 as (pik1 & rpb1 & a1 & Ep1' & Er1' & Eset1 & -> & ->).
  apply get_pik_inv in E2.
  destruct E2 as (pik2 & rpb2 & a2 & Ep2' & Er2' & Eset2 & -> & ->).
  rewrite Ep1 in Ep1'. injection Ep1' as <-.
  rewrite Ep2 in Ep2'. injection Ep2' as <-.
  rewrite Er1 in Er1'. injection Er1' as <-.
  rewrite Er2 in Er2'. injection Er2' as <-.
  apply setitem_picks in Eset1. destruct Eset1 as (cols1 & Hc1 & ->).
  apply setitem_picks in Eset2. destruct Eset2 as (cols2 & Hc2 & ->).
  rewrite fresh_block_length in Hc1, Hc2.
  assert (cols2 = cols1).
  { clear -Hc1 Hc2. revert cols2 Hc2.
    induction Hc1 as [| p c l r Hpc _ IH]; intros cols2 Hc2;
      inversion Hc2 as [| p' c' l' r' Hpc' Hr']; subst; [reflexivity |].
    rewrite Hpc in Hpc'. injection Hpc' as <-. f_equal. apply IH. exact Hr'. }
  subst cols2.
  set (ws := zip cols1 (map (pick_val rpb) pik)).
  exists (scatter (fresh_block w1 (shape1 rpb)) ws).
  cbn [w_heap with_heap]. rewrite !lookup_app_r by lia. rewrite !Nat.sub_diag.
  split; [reflexivity |]. split.
  - cbn [lookup list_lookup]. f_equal. apply list_eq. intros j.
    destruct (Nat.lt_ge_cases j (shape1 rpb)) as [Hlt | Hge].
    + apply scatter_forgets; [rewrite !fresh_block_length; reflexivity |].
      left. unfold ws. rewrite zip_fst_same_length.
      * destruct (Hcov j Hlt) as (p & Hp & Hpc).
        destruct (Forall2_In_l _ _ _ _ Hc1 Hp) as (c & Hc & Hpc').
        rewrite Hpc in Hpc'. injection Hpc' as <-. exact Hc.
      * rewrite length_map. symmetry. eapply Forall2_length. exact Hc1.
    + rewrite !(proj2 (lookup_ge_None _ _));
        [reflexivity | |]; rewrite scatter_length, fresh_block_length; exact Hge.
  - rewrite scatter_length. apply fresh_block_length.
Qed.

Ltac float_cases :=
  simpl in *; try congruence;
  repeat (match goal with
          | H : context [Rlt_dec ?a ?b] |- _ => destruct (Rlt_dec a b)
          | |- context [Rlt_dec ?a ?b] => destruct (Rlt_dec a b)
          end; simpl in *);
  try congruence; try lra; auto.

Lemma fmax_choice (a b : npfloat) : fmax a b = a \/ fmax a b = b.
Proof.
  unfold fmax. destruct (is_nan a); [left; reflexivity |].
  destruct (is_nan b); [right; reflexivity |].
  destruct (fltb a b); [right | left]; reflexivity.
Qed.

Lemma fmax_ge_l (m b : npfloat) :
  m <> NaN -> b <> NaN -> fltb (fmax m b) m = false.
Proof.
  intros Hm Hb. unfold fmax.
  destruct m as [| | | x]; destruct b as [| | | y]; float_cases.
Qed.

Lemma fmax_ge_r (m b : npfloat) :
  m <> NaN -> b <> NaN -> fltb (fmax m b) b = false.
Proof.
  intros Hm Hb. unfold fmax.
  destruct m as [| | | x]; destruct b as [| | | y]; float_cases.
Qed.

Lemma fold_fmax_max (l : ndarray) (v : npfloat) :
  v <> NaN -> Forall (fun u => u <> NaN) l ->
  In (fold_left fmax l v) (v :: l) /\
  Forall (fun u => fltb (fold_left fmax l v) u = false) (v :: l).
Proof.
  revert v. induction l as [| b l IH]; intros v Hv Hl.
  - simpl. split; [left; reflexivity |]. constructor; [| constructor].
    destruct v; float_cases.
  - inversion Hl as [| b' l' Hb Hl']; subst. cbn [fold_left].
    assert (Hvb : fmax v b <> NaN) by (apply fmax_not_nan; assumption).
    destruct (IH (fmax v b) Hvb Hl') as (Hin & Hall).
    split.
    + destruct Hin as [Hin | Hin].
      * rewrite <- Hin. destruct (fmax_choice v b) as [-> | ->];
          [left | right; left]; reflexivity.
      * right. right. exact Hin.
    + inversion Hall as [| m l0 Hm Hrest]; subst.
      assert (Hres : fold_left fmax l (fmax v b) <> NaN)
        by (apply fold_fmax_not_nan; assumption).
      assert (Hstep : forall u, u <> NaN -> fltb (fmax v b) u = false ->
                fltb (fold_left fmax l (fmax v b)) u = false).
      { intros u Hu Hlt.
        destruct (fold_left fmax l (fmax v b)) as [| | | x] eqn:Ef;
          destruct (fmax v b) as [| | | y] eqn:Eg;
          destruct u as [| | | z]; float_cases. }
      constructor; [| constructor; [| exact Hrest]].
      * apply Hstep; [exact Hv | apply fmax_ge_l; assumption].
      * apply Hstep; [exact Hb | apply fmax_ge_r; assumption].
Qed.

Lemma fold_fmax_nan (l : ndarray) (v : npfloat) :
  In NaN (v :: l) -> fold_left fmax l v = NaN.
Proof.
  revert v. induction l as [| b l IH]; intros v Hin.
  - destruct Hin as [-> | []]. reflexivity.
  - cbn [fold_left]. apply IH. destruct Hin as [-> | [-> | Hin]].
    + left. reflexivity.
    + left. unfold fmax. destruct (is_nan v) eqn:Ev; [| reflexivity].
      destruct v; try discriminate. reflexivity.
    + right. exact Hin.
Qed.

(** X7.  The echo value of a pick whose frame lies in the matrix is the
    maximum of the samples its window keeps, as [ndarray.max] computes it:
    not-a-number when the window keeps nothing or holds a not-a-number
    sample, and otherwise one of the samples, which no sample of the
    window exceeds. *)
Theorem pick_val_is_window_max (rpb : matrix) (p : pick) (c : nat) :
  pick_col (shape1 rpb) p = Ok c ->
  let win := samples rpb c
               (slice (shape0 rpb) (pick_z p - 2) (pick_z p + 2)) in
  (win = [] -> pick_val rpb p = NaN) /\
  (In NaN win -> pick_val rpb p = NaN) /\
  (win <> [] -> Forall (fun u => u <> NaN) win ->
   In (pick_val rpb p) win /\
   Forall (fun u => fltb (pick_val rpb p) u = false) win).
Proof.
  intros Hc win. rewrite (pick_val_window rpb p c Hc). fold win.
  split; [| split].
  - intros ->. reflexivity.
  - destruct win as [| v l]; [intros [] |]. intros Hin. simpl.
    apply fold_fmax_nan. exact Hin.
  - destruct win as [| v l]; [congruence |]. intros _ Hall.
    inversion Hall as [| v' l' Hv Hl]; subst. simpl.
    apply fold_fmax_max; assumption.
Qed.

(* ===================================================================== *)
(** * More on the Calibrator *)
(* ===================================================================== *)

(** X8.  The shape of what [calibration] returns follows NumPy's
    broadcasting.  Without a range, with a scalar range, or with a range
    array of the length of [val] or of length one, the result has the
    length of [val]; a [val] of length one is stretched to the length of
    the range; any other pair of lengths raises [ValueError]. *)
Theorem calibration_broadcast (w : world) (val : ref) (a : ndarray) (wl : R)
    (rng : option operand) (abs_calib : npfloat) :
  w_heap w !! val = Some a ->
  let res := snd (calibration val wl rng abs_calib w) in
  match rng with
  | None | Some (Scalar _) => exists out, res = Ok out /\ length out = length a
  | Some (Array r) =>
      (length r = length a \/ length r = 1 ->
       exists out, res = Ok out /\ length out = length a) /\
      (length a = 1 -> exists out, res = Ok out /\ length out = length r) /\
      (length r <> length a -> length r <> 1 -> length a <> 1 ->
       res = Raise ValueError)
  end.
Proof.
  intros Ha res. subst res.
  rewrite (calibration_unfold _ _ _ _ _ _ Ha). cbn [snd].
  set (d := map (decibel abs_calib) (zero_to_nan a)).
  assert (Hd : length d = length a)
    by (unfold d; rewrite length_map; apply zero_to_nan_length).
  destruct rng as [[s | r] |]; cbn [geometric_loss operand_map array_add].
  - eexists. split; [reflexivity |]. rewrite length_map. exact Hd.
  - set (g := map _ r). assert (Hg : length g = length r) by apply length_map.
    unfold broadcast. rewrite Hd, Hg.
    destruct (Nat.eqb_spec (length a) (length r)) as [Heq | Hne].
    + split; [| split].
      * intros _. eexists. split; [reflexivity |].
        rewrite length_zip_with. lia.
      * intros _. eexists. split; [reflexivity |].
        rewrite length_zip_with. lia.
      * intros Hn. congruence.
    + destruct d as [| u [| u' d']].
      * destruct g as [| y [| y' g']]; simpl in Hd, Hg.
        -- lia.
        -- split; [| split].
           ++ intros _. eexists. split; [reflexivity |]. simpl. lia.
           ++ intros H1. lia.
           ++ intros _ H1. lia.
        -- split; [| split].
           ++ intros [H1 | H1]; lia.
           ++ intros H1. lia.
           ++ intros _ _ _. reflexivity.
      * simpl in Hd. split; [| split].
        -- intros [H1 | H1]; lia.
        -- intros _. eexists. split; [reflexivity |]. rewrite length_map. exact Hg.
        -- intros _ _ H1. lia.
      * simpl in Hd. destruct g as [| y [| y' g']]; simpl in Hg.
        -- split; [| split]; [intros [H1 | H1]; lia | intros H1; lia |].
           intros _ _ _. reflexivity.
        -- split; [| split].
           ++ intros _. eexists. split; [reflexivity |].
              rewrite length_map. simpl. exact Hd.
           ++ intros H1. lia.
           ++ intros _ H1. lia.
        -- split; [| split]; [intros [H1 | H1]; lia | intros H1; lia |].
           intros _ _ _. reflexivity.
  - eexists. split; [reflexivity |]. rewrite length_map. exact Hd.
Qed.

Lemma calibrated_lookup (a rng : ndarray) (i : nat) (u g : npfloat) :
  a !! i = Some u -> rng !! i = Some g ->
  calibrated a rng !! i
  = Some (fadd (decibel Params.abs_calib (if feqb u (Fin 0) then NaN else u))
               (range_loss g)).
Proof.
  intros Hu Hg. unfold calibrated. apply lookup_zip_with_Some.
  eexists. eexists. split; [reflexivity |]. split.
  - rewrite map_lookup, (zero_to_nan_lookup _ _ _ Hu). reflexivity.
  - rewrite map_lookup, Hg. reflexivity.
Qed.

(* ===================================================================== *)
(** * More on the Orchestrator *)
(* ===================================================================== *)

Lemma assoc_put_other (k k' : string) (v : ndarray)
    (l : list (string * ndarray)) :
  k <> k' -> assoc k (put k' v l) = assoc k l.
Proof.
  intros Hk. induction l as [| [k0 v0] l IH]; simpl.
  - destruct (String.eqb_spec k k'); [contradiction | reflexivity].
  - destruct (String.eqb_spec k' k0) as [-> | Hne]; simpl.
    + destruct (String.eqb_spec k k0); [contradiction | reflexivity].
    + destruct (String.eqb_spec k k0); [reflexivity | exact IH].
Qed.

Lemma screened_cases (u : npfloat) :
  screened u = NaN \/ exists x, screened u = Fin x /\ (-200 <= x <= 10)%R.
Proof.
  unfold screened, fgtb. destruct u as [| | | x]; simpl; auto.
  destruct (Rlt_dec x (-200)); simpl; auto.
  destruct (Rlt_dec 10 x); simpl; auto.
  right. exists x. split; [reflexivity | lra].
Qed.

Lemma Rpower10_minus_10 : Rpower 10 (-10) = (/ 10 ^ 10)%R.
Proof.
  replace (-10)%R with (- INR 10)%R by (simpl; lra).
  rewrite Rpower_Ropp, Rpower_pow by lra. reflexivity.
Qed.

Lemma Rpower10_half : Rpower 10 (10 / 20) = sqrt 10.
Proof.
  rewrite <- Rpower_sqrt by lra. f_equal. lra.
Qed.

Section Amplitude.

Context `{Collaborators}.

(** The amplitude column of the table [get_srf] returns, computed from the
    array [get_pik] returned and the range column; the array of [get_pik]
    is left in the heap with its zeros overwritten. *)
Lemma get_srf_amp (orbit : string) (save : bool) (w w' : world)
    (t : DataFrame) :
  get_srf orbit save w = (w', Ok t) ->
  exists pik w2 a rng,
    get_pik orbit w = (w2, Ok pik) /\
    w_heap w2 !! pik = Some a /\
    column t "rng" = Ok rng /\
    length rng = length a /\
    column t "amp" = Ok (screen_amplitude (calibrated a rng)) /\
    w_heap w' !! pik = Some (zero_to_nan a).
Proof.
  intros E. apply get_srf_inv in E.
  destruct E as (aux & pik & w2 & rng & pdb & w3
                 & Eaux & Epik & Erng & Ecal & Eset & ->).
  destruct (get_aux_shape _ _ _ _ Eaux)
    as (_ & rpb & rng' & Erpb & _ & _ & Erng' & Hrng).
  rewrite Erng in Erng'. injection Erng' as <-.
  destruct (get_pik_heap _ _ _ _ Epik) as (rpb' & a & Erpb' & Ha & Hla & _).
  rewrite Erpb in Erpb'. injection Erpb' as <-.
  rewrite (calibration_unfold _ _ _ _ _ _ Ha) in Ecal.
  injection Ecal as <- Ecal.
  cbn [array_add geometric_loss operand_map] in Ecal.
  fold range_loss in Ecal. unfold broadcast in Ecal.
  rewrite !length_map, zero_to_nan_length, Hla, Hrng, Nat.eqb_refl in Ecal.
  injection Ecal as <-. fold (calibrated a rng) in Eset.
  apply setitem_inv in Eset. destruct Eset as (_ & ->).
  exists pik, w2, a, rng.
  split; [exact Epik |]. split; [exact Ha |].
  split.
  { unfold column in *. cbn [df_cols]. rewrite assoc_put_other by discriminate.
    exact Erng. }
  split; [congruence |].
  split.
  { unfold column. cbn [df_cols]. rewrite assoc_put_same. reflexivity. }
  assert (Hh : w_heap (with_heap (<[pik := zero_to_nan a]> (w_heap w2)) w2)
                 !! pik = Some (zero_to_nan a)).
  { cbn [w_heap with_heap]. apply list_lookup_insert_eq.
    eapply lookup_lt_Some. exact Ha. }
  destruct save; exact Hh.
Qed.

(** X9.  In the table [get_srf] returns, a frame whose raw echo is
    exactly zero or not-a-number (an unpicked frame on zeroed memory, a
    pick whose window was empty) has a missing amplitude. *)
Theorem get_srf_missing_echo (orbit : string) (save : bool) (w w' : world)
    (t : DataFrame) :
  get_srf orbit save w = (w', Ok t) ->
  exists pik w2 a amp,
    get_pik orbit w = (w2, Ok pik) /\
    w_heap w2 !! pik = Some a /\
    column t "amp" = Ok amp /\
    length amp = length a /\
    forall i, a !! i = Some (Fin 0) \/ a !! i = Some NaN ->
              amp !! i = Some NaN.
Proof.
  intros E. destruct (get_srf_amp _ _ _ _ _ E)
    as (pik & w2 & a & rng & Epik & Ha & _ & Hl & Eamp & _).
  exists pik, w2, a, (screen_amplitude (calibrated a rng)).
  split; [exact Epik |]. split; [exact Ha |]. split; [exact Eamp |].
  split.
  { rewrite screen_amplitude_length. unfold calibrated.
    rewrite length_zip_with, !length_map, zero_to_nan_length. lia. }
  intros i Hi.
  assert (Hlt : i < length a).
  { destruct Hi as [Hi | Hi]; eapply lookup_lt_Some; exact Hi. }
  destruct (rng !! i) as [g |] eqn:Hg;
    [| apply lookup_ge_None in Hg; lia].
  rewrite screen_amplitude_lookup.
  destruct Hi as [Hi | Hi]; rewrite (calibrated_lookup _ _ _ _ _ Hi Hg).
  - rewrite feqb_zero_zero. reflexivity.
  - reflexivity.
Qed.

(** X12.  Every amplitude of the table [get_srf] returns is either
    missing or a finite number between [10^-10] and [sqrt 10]: the
    screening leaves no infinite, zero or negative amplitude. *)
Theorem get_srf_amplitude_range (orbit : string) (save : bool) (w w' : world)
    (t : DataFrame) :
  get_srf orbit save w = (w', Ok t) ->
  exists amp,
    column t "amp" = Ok amp /\
    forall i v, amp !! i = Some v ->
      v = NaN \/ exists y, v = Fin y /\ (/ 10 ^ 10 <= y <= sqrt 10)%R.
Proof.
  intros E. destruct (get_srf_amp _ _ _ _ _ E)
    as (pik & w2 & a & rng & _ & _ & _ & _ & Eamp & _).
  eexists. split; [exact Eamp |].
  intros i v Hv. rewrite screen_amplitude_lookup in Hv.
  destruct (calibrated a rng !! i) as [u |]; [| discriminate].
  cbn [option_map] in Hv. injection Hv as <-.
  destruct (screened_cases u) as [-> | (x & -> & Hx)]; [left; reflexivity |].
  right. exists (Rpower 10 (x / 20)). split.
  - cbn [fdiv]. destruct (Req_dec_T 20 0); [lra | reflexivity].
  - rewrite <- Rpower10_minus_10, <- Rpower10_half.
    split; apply Rle_Rpower; lra.
Qed.

End Amplitude.

Lemma get_pik_keeps_files (orbit : string) (w : world) :
  w_files (fst (get_pik orbit w)) = w_files w.
Proof.
  destruct (read_pik orbit w) as [w1 [pik | e]] eqn:Epik.
  2:{ unfold get_pik. rewrite (bind_raise _ _ _ _ _ Epik).
      rewrite (reads_only_run _ _ _ _ (read_pik_reads orbit) Epik). reflexivity. }
  assert (w1 = w) by (eapply reads_only_run; [apply read_pik_reads | exact Epik]).
  subst w1.
  destruct (read_rpb orbit w) as [w1 [rpb | e]] eqn:Erpb.
  2:{ unfold get_pik. rewrite (bind_ok _ _ _ _ _ Epik).
      rewrite (bind_raise _ _ _ _ _ Erpb).
      rewrite (reads_only_run _ _ _ _ (read_rpb_reads orbit) Erpb). reflexivity. }
  assert (w1 = w) by (eapply reads_only_run; [apply read_rpb_reads | exact Erpb]).
  subst w1.
  rewrite (get_pik_unfold _ _ _ _ Epik Erpb).
  destruct (setitem_list _ _ _); reflexivity.
Qed.

Section Outcomes.

Context `{Collaborators}.

(** X13.  [get_srf] writes at the very end: a call that raises has
    written no file, a call that returns with [save=True] has written the
    table it returns, once, under the name of the orbit, and a call with
    [save=False] has written nothing. *)
Theorem get_srf_writes_last (orbit : string) (save : bool) (w : world) :
  match snd (get_srf orbit save w) with
  | Ok t =>
      w_files (fst (get_srf orbit save w))
      = w_files w ++ (if save then [srf_entry orbit t] else [])
  | Raise _ => w_files (fst (get_srf orbit save w)) = w_files w
  end.
Proof.
  destruct (get_srf orbit save w) as [w' [t | e]] eqn:E; cbn [fst snd].
  - apply (get_srf_files _ _ _ _ _ E).
  - unfold get_srf in E.
    destruct (get_aux orbit w) as [w1 [aux | e1]] eqn:Eaux.
    2:{ rewrite (bind_raise _ _ _ _ _ Eaux) in E. injection E as <- _.
        rewrite (reads_only_run _ _ _ _ (get_aux_reads orbit) Eaux). reflexivity. }
    assert (w1 = w) by (eapply reads_only_run; [apply get_aux_reads | exact Eaux]).
    subst w1. rewrite (bind_ok _ _ _ _ _ Eaux) in E.
    pose proof (get_pik_keeps_files orbit w) as Hpik.
    destruct (get_pik orbit w) as [w2 [pik | e2]] eqn:Epik; cbn [fst] in Hpik.
    2:{ rewrite (bind_raise _ _ _ _ _ Epik) in E. injection E as <- _. exact Hpik. }
    rewrite (bind_ok _ _ _ _ _ Epik) in E.
    unfold mbind at 1, M_bind at 1, lift at 1 in E.
    destruct (column aux "rng") as [rng | e3]; [| injection E as <- _; exact Hpik].
    pose proof (calibration_keeps_files pik (Params.ct_c / Params.frq)
                  (Some (Array rng)) Params.abs_calib w2) as Hcal.
    unfold mbind at 1, M_bind at 1 in E.
    destruct (calibration _ _ _ _ w2) as [w3 [pdb | e4]]; cbn [fst] in Hcal.
    2:{ injection E as <- _. congruence. }
    unfold mbind at 1, M_bind at 1, lift at 1 in E.
    destruct (setitem aux "amp" _) as [t | e5]; [| injection E as <- _; congruence].
    destruct save; discriminate.
Qed.

(** X14.  A missing telemetry or waveform file stops the whole pipeline
    before anything is allocated or written: [get_aux], [get_srf] and
    [inline_rsr] raise the same exception and leave the process as it was,
    and so does [get_pik] when the pick or the waveform file is missing. *)
Theorem missing_file_raises (orbit : string) (w : world) :
  (w_aux w orbit = None \/ w_rpb w orbit = None ->
   exists e,
     get_aux orbit w = (w, Raise e) /\
     (forall save, get_srf orbit save w = (w, Raise e)) /\
     (forall winsize sampling save,
        inline_rsr orbit winsize sampling save w = (w, Raise e))) /\
  (w_pik w orbit = None \/ w_rpb w orbit = None ->
   exists e, get_pik orbit w = (w, Raise e)).
Proof.
  split.
  - intros Hmiss. exists IOError.
    assert (Eaux : get_aux orbit w = (w, Raise IOError)).
    { unfold get_aux. unfold mbind at 1, M_bind at 1, read_aux at 1.
      destruct (w_aux w orbit) as [tab |] eqn:Etab; [| reflexivity].
      destruct Hmiss as [Hm | Hm]; [discriminate |]. cbn [from_option].
      unfold mbind at 1, M_bind at 1, read_rpb at 1.
      unfold mbind at 1, M_bind at 1. rewrite Hm. reflexivity. }
    split; [exact Eaux |].
    assert (Esrf : forall save, get_srf orbit save w = (w, Raise IOError)).
    { intros save. unfold get_srf. apply (bind_raise _ _ _ _ _ Eaux). }
    split; [exact Esrf |].
    intros winsize sampling save. unfold inline_rsr.
    apply (bind_raise _ _ _ _ _ (Esrf true)).
  - intros Hmiss. unfold get_pik.
    destruct (read_pik orbit w) as [w1 [pik | e]] eqn:Epik.
    + assert (w1 = w)
        by (eapply reads_only_run; [apply read_pik_reads | exact Epik]).
      subst w1. exists IOError. rewrite (bind_ok _ _ _ _ _ Epik).
      destruct Hmiss as [Hm | Hm].
      { unfold read_pik, mbind, M_bind in Epik. rewrite Hm in Epik.
        discriminate. }
      unfold mbind at 1, M_bind at 1, read_rpb at 1.
      unfold mbind at 1, M_bind at 1. rewrite Hm. reflexivity.
    + assert (w1 = w)
        by (eapply reads_only_run; [apply read_pik_reads | exact Epik]).
      subst w1. exists e. apply (bind_raise _ _ _ _ _ Epik).
Qed.

End Outcomes.

(** X15.  [calibration] touches one array only: the other arrays of the
    heap, the files, the working directory and the input files are after
    the call as they were before it. *)
Theorem calibration_frame (w : world) (val : ref) (wl : R)
    (rng : option operand) (abs_calib : npfloat) :
  let w' := fst (calibration val wl rng abs_calib w) in
  length (w_heap w') = length (w_heap w) /\
  (forall l, l <> val -> w_heap w' !! l = w_heap w !! l) /\
  w_files w' = w_files w /\ w_cwd w' = w_cwd w /\
  w_rpb w' = w_rpb w /\ w_pik w' = w_pik w /\ w_aux w' = w_aux w.
Proof.
  cbv zeta. destruct (w_heap w !! val) as [a |] eqn:Ha.
  - rewrite (calibration_unfold _ _ _ _ _ _ Ha). cbn [fst w_heap with_heap].
    split; [apply length_insert |].
    split; [| repeat split].
    intros l Hl. apply list_lookup_insert_ne. congruence.
  - unfold calibration, mbind, M_bind, load. rewrite Ha. cbn [from_option fst].
    repeat split.
Qed.

(* ===================================================================== *)
(** * More on the Telemetry Resampler *)
(* ===================================================================== *)

Section Resampler.

Context `{Collaborators}.

Lemma channel_inv (x xnew : ndarray) (tab : DataFrame) (name : string)
    (v : ndarray) :
  (y ← column tab name; resample x y xnew) = Ok v ->
  exists y t,
    column tab name = Ok y /\ splrep x y = Ok t /\ v = map (splev1 t) xnew.
Proof.
  intros E. apply rbind_inv in E. destruct E as (y & Ey & E).
  unfold resample in E. apply rbind_inv in E. destruct E as (t & Et & E).
  injection E as <-. exists y, t. repeat split; assumption.
Qed.

(** X16.  Each of the thirteen channels of the table [get_aux] returns
    is the spline that [splrep] fits to the telemetry column of that
    channel, over the abscissae [linspace(0, N-1, M)] of the [M] telemetry
    epochs, evaluated at the frame indices [0 .. N-1]; the columns [sza],
    [mag] and [sun_dist] come from [SZA], [Mag_field] and [Sun_dist]. *)
Theorem get_aux_channels (orbit : string) (w w' : world) (aux : DataFrame) :
  get_aux orbit w = (w', Ok aux) ->
  exists tab rpb utc,
    w_aux w orbit = Some tab /\
    read_rpb orbit w = (w, Ok rpb) /\
    column tab "UTC" = Ok utc /\
    forall out src, In (out, src) channels ->
      exists y t,
        column tab src = Ok y /\
        splrep (linspace 0 (INR (shape1 rpb) - 1) (length utc)) y = Ok t /\
        column aux out = Ok (map (splev1 t) (arange (shape1 rpb))).
Proof.
  intros E. unfold get_aux in E.
  apply bind_inv in E. destruct E as (tab & w1 & Etab & E).
  assert (w1 = w) by (eapply reads_only_run; [apply read_aux_reads | eassumption]).
  subst w1.
  apply bind_inv in E. destruct E as (rpb & w1 & Erpb & E).
  assert (w1 = w) by (eapply reads_only_run; [apply read_rpb_reads | eassumption]).
  subst w1.
  apply bind_inv in E. destruct E as (utc & w1 & Eutc & E).
  apply lift_inv in Eutc. destruct Eutc as [-> Eutc].
  do 13 (let E' := fresh "C" in
         apply bind_inv in E; destruct E as (? & ? & E' & E);
         apply lift_inv in E'; destruct E' as [-> E'];
         apply channel_inv in E'; destruct E' as (? & ? & ? & ? & ->)).
  apply lift_inv in E. destruct E as [_ E].
  apply of_columns_ok in E. destruct E as (Hcols & _).
  exists tab, rpb, utc.
  split.
  { unfold read_aux in Etab. injection Etab as Etab.
    destruct (w_aux w orbit); [| discriminate]. injection Etab as ->.
    reflexivity. }
  split; [exact Erpb |]. split; [exact Eutc |].
  intros out src Hin. unfold column at 2. rewrite Hcols.
  unfold channels in Hin. cbn [In] in Hin.
  repeat (destruct Hin as [Hin | Hin];
          [injection Hin as <- <-; eexists; eexists;
           split; [eassumption |]; split; [eassumption |]; reflexivity |]).
  destruct Hin.
Qed.

(** X17.  The range column of the table [get_aux] returns is computed
    from its own resampled columns, frame by frame:
    [rng = radius * 1000 - lonlat2rad(lon, lat, mars_radius)]; the table
    has these fourteen columns and no other. *)
Theorem get_aux_range (orbit : string) (w w' : world) (aux : DataFrame) :
  get_aux orbit w = (w', Ok aux) ->
  exists lon lat radius rng,
    column aux "lon" = Ok lon /\
    column aux "lat" = Ok lat /\
    column aux "radius" = Ok radius /\
    column aux "rng" = Ok rng /\
    length rng = df_len aux /\
    (forall i lo la ra,
       lon !! i = Some lo -> lat !! i = Some la -> radius !! i = Some ra ->
       rng !! i
       = Some (fsub (fmul ra (Fin 1000)) (lonlat2rad1 lo la mars_radius))) /\
    map fst (df_cols aux)
    = ["HGAin"; "HGAout"; "lat"; "lon"; "mag"; "pitch"; "radius"; "rng";
       "roll"; "sun_dist"; "sza"; "vrad"; "vtan"; "yaw"].
Proof.
  intros E.
  destruct (get_aux_shape _ _ _ _ E) as (_ & rpb & rng0 & _ & Hlen & _ & Erng0 & Hrng0).
  unfold get_aux in E.
  apply bind_inv in E. destruct E as (tab & w1 & Etab & E).
  apply bind_inv in E. destruct E as (rpb1 & w2 & Erpb & E).
  apply bind_inv in E. destruct E as (utc & w3 & Eutc & E).
  do 13 (let E' := fresh "C" in
         apply bind_inv in E; destruct E as (? & ? & E' & E)).
  apply lift_inv in E. destruct E as [_ E].
  apply of_columns_ok in E. destruct E as (Hcols & _).
  unfold column in *. rewrite Hcols in *. cbn [assoc String.eqb Ascii.eqb Bool.eqb] in *.
  eexists. eexists. eexists. eexists.
  split; [reflexivity |]. split; [reflexivity |]. split; [reflexivity |].
  split; [reflexivity |].
  split; [cbn [from_option] in Erng0; injection Erng0 as <-; congruence |].
  split; [| reflexivity].
  intros i lo la ra Hlo Hla Hra.
  apply lookup_zip_with_Some. eexists. eexists.
  split; [reflexivity |]. split.
  - rewrite map_lookup, Hra. reflexivity.
  - apply lookup_zip_with_Some. eexists. eexists.
    split; [reflexivity |]. split; eassumption.
Qed.

End Resampler.

(** X18.  The abscissae [get_aux] gives the telemetry epochs run from 0
    to [N-1]: with at least two epochs, the first lies at 0 and the last at
    [N-1]; they increase strictly when the matrix has at least two frames,
    and all coincide at 0 when it has one. *)
Theorem linspace_abscissae (n m : nat) :
  2 <= m ->
  let x := linspace 0 (INR n - 1) m in
  length x = m /\
  x !! 0 = Some (Fin 0) /\
  x !! (m - 1) = Some (Fin (INR n - 1)) /\
  (2 <= n -> forall i j xi xj,
     i < j -> x !! i = Some (Fin xi) -> x !! j = Some (Fin xj) -> (xi < xj)%R) /\
  (n = 1 -> forall i, i < m -> x !! i = Some (Fin 0)).
Proof.
  intros Hm x.
  assert (Hx : forall i, i < m ->
            x !! i = Some (Fin (INR i * (INR n - 1) / INR (m - 1))))
    by (intros i Hi; apply linspace_position; assumption).
  assert (Hm1 : (0 < INR (m - 1))%R) by (apply lt_0_INR; lia).
  split; [| split; [| split; [| split]]].
  - unfold x, linspace. destruct m as [| [| m']]; [lia | lia |].
    rewrite length_map, length_seq. reflexivity.
  - rewrite Hx by lia. do 2 f_equal. simpl. field. lra.
  - rewrite Hx by lia. do 2 f_equal. field. lra.
  - intros Hn i j xi xj Hij Hi Hj.
    assert (Hjm : j < m).
    { apply lookup_lt_Some in Hj. unfold x, linspace in Hj.
      destruct m as [| [| m']]; [lia | lia |].
      rewrite length_map, length_seq in Hj. exact Hj. }
    rewrite Hx in Hi by lia. rewrite Hx in Hj by lia.
    injection Hi as <-. injection Hj as <-.
    assert (Hn1 : (0 < INR n - 1)%R).
    { replace 1%R with (INR 1) by reflexivity. rewrite <- minus_INR by lia.
      apply lt_0_INR. lia. }
    assert (Hlt : (INR i < INR j)%R) by (apply lt_INR; exact Hij).
    unfold Rdiv. apply Rmult_lt_compat_r; [apply Rinv_0_lt_compat; exact Hm1 |].
    apply Rmult_lt_compat_r; assumption.
  - intros -> i Hi. rewrite Hx by exact Hi. do 2 f_equal. simpl. field. lra.
Qed.

(* ===================================================================== *)
(** * More on the secondary entry point *)
(* ===================================================================== *)

Section Estimator.

Context `{Collaborators}.

Lemma attach_inv (srf b b' : DataFrame) (xo : ndarray) (name : string) :
  (v ← ix srf xo name; setitem b name v) = Ok b' ->
  exists v,
    length v = length xo /\ length v = df_len b /\
    b' = mkDF (df_len b) (put name v (df_cols b)).
Proof.
  intros E. apply rbind_inv in E. destruct E as (v & Ev & E).
  unfold ix in Ev. apply rbind_inv in Ev. destruct Ev as (c & _ & Ev).
  injection Ev as <-. apply setitem_inv in E. destruct E as (Hl & ->).
  eexists. split; [apply length_map |]. split; [exact Hl | reflexivity].
Qed.

(** X19.  The table [inline_rsr] returns is the estimator's table for the
    amplitude column of the aligned track at the central frequency, with
    the five columns [lat], [lon], [roll], [rng] and [sza] attached: it has
    the estimator's number of rows, each attached column has one value per
    window position [xo], and the estimator's other columns are kept. *)
Theorem inline_rsr_table (orbit : string) (winsize sampling : npfloat)
    (save : bool) (w w' : world) (b : DataFrame) :
  inline_rsr orbit winsize sampling save w = (w', Ok b) ->
  exists srf w1 amp b0 xo,
    get_srf orbit true w = (w1, Ok srf) /\
    column srf "amp" = Ok amp /\
    inline_estim amp Params.frq winsize sampling = Ok b0 /\
    column b0 "xo" = Ok xo /\
    df_len b = df_len b0 /\
    length xo = df_len b0 /\
    (forall name, In name ["lat"; "lon"; "roll"; "rng"; "sza"] ->
       exists c, column b name = Ok c /\ length c = length xo) /\
    (forall name, ~ In name ["lat"; "lon"; "roll"; "rng"; "sza"] ->
       column b name = column b0 name).
Proof.
  intros E. unfold inline_rsr in E.
  apply bind_inv in E. destruct E as (srf & w1 & Esrf & E).
  apply bind_inv in E. destruct E as (amp & w2 & Eamp & E).
  apply lift_inv in Eamp. destruct Eamp as [-> Eamp].
  apply bind_inv in E. destruct E as (b0 & w2 & Eb0 & E).
  apply lift_inv in Eb0. destruct Eb0 as [-> Eb0].
  apply bind_inv in E. destruct E as (xo & w2 & Exo & E).
  apply lift_inv in Exo. destruct Exo as [-> Exo].
  cbv zeta in E.
  apply bind_inv in E. destruct E as (b1 & w2 & E1 & E).
  apply lift_inv in E1. destruct E1 as [-> E1].
  apply attach_inv in E1. destruct E1 as (v1 & L1 & D1 & ->).
  apply bind_inv in E. destruct E as (b2 & w2 & E2 & E).
  apply lift_inv in E2. destruct E2 as [-> E2].
  apply attach_inv in E2. destruct E2 as (v2 & L2 & D2 & ->).
  apply bind_inv in E. destruct E as (b3 & w2 & E3 & E).
  apply lift_inv in E3. destruct E3 as [-> E3].
  apply attach_inv in E3. destruct E3 as (v3 & L3 & D3 & ->).
  apply bind_inv in E. destruct E as (b4 & w2 & E4 & E).
  apply lift_inv in E4. destruct E4 as [-> E4].
  apply attach_inv in E4. destruct E4 as (v4 & L4 & D4 & ->).
  apply bind_inv in E. destruct E as (b5 & w2 & E5 & E).
  apply lift_inv in E5. destruct E5 as [-> E5].
  apply attach_inv in E5. destruct E5 as (v5 & L5 & D5 & ->).
  apply bind_inv in E. destruct E as ([] & w2 & _ & E).
  injection E as _ <-.
  rewrite length_map in *.
  exists srf, w1, amp, b0, xo.
  split; [exact Esrf |]. split; [exact Eamp |]. split; [exact Eb0 |].
  split; [exact Exo |]. split; [reflexivity |].
  split; [cbn [df_len] in *; congruence |].
  split.
  - intros name Hin. unfold column. cbn [df_cols].
    cbn [In] in Hin.
    destruct Hin as [<- | [<- | [<- | [<- | [<- | []]]]]].
    + exists v1. rewrite !assoc_put_other by discriminate.
      rewrite assoc_put_same. split; [reflexivity | exact L1].
    + exists v2. rewrite !assoc_put_other by discriminate.
      rewrite assoc_put_same. split; [reflexivity | exact L2].
    + exists v3. rewrite !assoc_put_other by discriminate.
      rewrite assoc_put_same. split; [reflexivity | exact L3].
    + exists v4. rewrite !assoc_put_other by discriminate.
      rewrite assoc_put_same. split; [reflexivity | exact L4].
    + exists v5. rewrite assoc_put_same. split; [reflexivity | exact L5].
  - intros name Hnot. unfold column. cbn [df_cols].
    rewrite !assoc_put_other; [reflexivity | | | | |];
      intros ->; apply Hnot; cbn [In]; tauto.
Qed.

End Estimator.

Lemma assoc_in (k : string) (l : list (string * ndarray)) :
  In k (map fst l) -> exists c, assoc k l = Some c.
Proof.
  induction l as [| [k' v] l IH]; simpl; [tauto |].
  intros Hin. destruct (String.eqb_spec k k') as [-> | Hne].
  - exists v. reflexivity.
  - destruct Hin as [-> | Hin]; [contradiction | exact (IH Hin)].
Qed.

Section Returns.

Context `{Collaborators}.

Lemma get_aux_names (orbit : string) (w w' : world) (aux : DataFrame) :
  get_aux orbit w = (w', Ok aux) ->
  map fst (df_cols aux)
  = ["HGAin"; "HGAout"; "lat"; "lon"; "mag"; "pitch"; "radius"; "rng";
     "roll"; "sun_dist"; "sza"; "vrad"; "vtan"; "yaw"].
Proof.
  intros E. unfold get_aux in E.
  do 16 (apply bind_inv in E; destruct E as (? & ? & _ & E)).
  apply lift_inv in E. destruct E as [_ E].
  apply of_columns_ok in E. destruct E as (-> & _). reflexivity.
Qed.

Lemma get_srf_geometry (orbit : string) (save : bool) (w w' : world)
    (t : DataFrame) (name : string) :
  get_srf orbit save w = (w', Ok t) ->
  In name ["lat"; "lon"; "roll"; "rng"; "sza"] ->
  exists c, column t name = Ok c.
Proof.
  intros E Hin. apply get_srf_inv in E.
  destruct E as (aux & pik & w2 & rng & pdb & w3 & Eaux & _ & _ & _ & Eset & _).
  apply get_aux_names in Eaux. apply setitem_inv in Eset.
  destruct Eset as (_ & ->). unfold column. cbn [df_cols].
  destruct (assoc_in name (df_cols aux)) as (c & Ec).
  { rewrite Eaux. cbn [In] in *. tauto. }
  exists c. rewrite assoc_put_other.
  - rewrite Ec. reflexivity.
  - intros ->. cbn [In] in Hin.
    destruct Hin as [Hn | [Hn | [Hn | [Hn | [Hn | []]]]]]; discriminate.
Qed.

Lemma attach_ok (srf b : DataFrame) (xo c : ndarray) (name : string) :
  column srf name = Ok c -> length xo = df_len b ->
  exists b',
    (v ← ix srf xo name; setitem b name v) = Ok b' /\ df_len b' = df_len b.
Proof.
  intros Ec Hl. unfold ix. rewrite Ec. cbn [mbind result_bind mret result_ret].
  unfold setitem. rewrite length_map, Hl, Nat.eqb_refl.
  eexists. split; reflexivity.
Qed.

(** What follows [get_srf] in [inline_rsr] returns when the estimator
    returns a table with a column [xo] of the length of the table, the
    track has the five columns attached, and the plot does not raise. *)
Lemma after_srf_returns (orbit : string) (winsize sampling : npfloat)
    (save : bool) (w : world) (srf b0 : DataFrame) (amp xo : ndarray) :
  column srf "amp" = Ok amp ->
  inline_estim amp Params.frq winsize sampling = Ok b0 ->
  column b0 "xo" = Ok xo ->
  length xo = df_len b0 ->
  (forall name, In name ["lat"; "lon"; "roll"; "rng"; "sza"] ->
     exists c, column srf name = Ok c) ->
  (save = true -> forall b, plot_inline b Params.frq (zfill 7 orbit) = Ok tt) ->
  exists w' b,
    after_srf orbit winsize sampling save srf w = (w', Ok b) /\
    df_len b = df_len b0.
Proof.
  intros Eamp Eb0 Exo Hl Hcol Hplot. unfold after_srf.
  unfold mbind at 1, M_bind at 1, lift at 1. rewrite Eamp.
  unfold mbind at 1, M_bind at 1, lift at 1. rewrite Eb0.
  unfold mbind at 1, M_bind at 1, lift at 1. rewrite Exo. cbv zeta.
  assert (Hxo : length (map rint xo) = df_len b0) by (rewrite length_map; exact Hl).
  destruct (Hcol "lat") as (c1 & E1); [cbn; tauto |].
  destruct (attach_ok srf b0 (map rint xo) c1 "lat" E1 Hxo) as (b1 & A1 & D1).
  unfold mbind at 1, M_bind at 1, lift at 1. rewrite A1.
  destruct (Hcol "lon") as (c2 & E2); [cbn; tauto |].
  destruct (attach_ok srf b1 (map rint xo) c2 "lon" E2) as (b2 & A2 & D2);
    [congruence |].
  unfold mbind at 1, M_bind at 1, lift at 1. rewrite A2.
  destruct (Hcol "roll") as (c3 & E3); [cbn; tauto |].
  destruct (attach_ok srf b2 (map rint xo) c3 "roll" E3) as (b3 & A3 & D3);
    [congruence |].
  unfold mbind at 1, M_bind at 1, lift at 1. rewrite A3.
  destruct (Hcol "rng") as (c4 & E4); [cbn; tauto |].
  destruct (attach_ok srf b3 (map rint xo) c4 "rng" E4) as (b4 & A4 & D4);
    [congruence |].
  unfold mbind at 1, M_bind at 1, lift at 1. rewrite A4.
  destruct (Hcol "sza") as (c5 & E5); [cbn; tauto |].
  destruct (attach_ok srf b4 (map rint xo) c5 "sza" E5) as (b5 & A5 & D5);
    [congruence |].
  unfold mbind at 1, M_bind at 1, lift at 1. rewrite A5.
  destruct save.
  - unfold mbind, M_bind, ask, write_file, lift, mret, M_ret.
    rewrite (Hplot eq_refl b5).
    eexists. eexists. split; [reflexivity | congruence].
  - eexists. eexists. split; [reflexivity | congruence].
Qed.

End Returns.

(* ===================================================================== *)
(** * The names of the files written *)
(* ===================================================================== *)

Lemma string_length_append (s t : string) :
  String.length (s ++ t)%string = String.length s + String.length t.
Proof. induction s as [| c s IH]; simpl; [reflexivity | rewrite IH; reflexivity]. Qed.

Lemma string_append_assoc (s t u : string) :
  ((s ++ t) ++ u = s ++ (t ++ u))%string.
Proof. induction s as [| c s IH]; simpl; [reflexivity | rewrite IH; reflexivity]. Qed.

Lemma zeros_plus (a b : nat) :
  string_of_list_ascii (repeat "0"%char (a + b))
  = (string_of_list_ascii (repeat "0"%char a)
     ++ string_of_list_ascii (repeat "0"%char b))%string.
Proof. induction a as [| a IH]; simpl; [reflexivity | rewrite IH; reflexivity]. Qed.

Lemma zeros_length (k : nat) :
  String.length (string_of_list_ascii (repeat "0"%char k)) = k.
Proof. induction k as [| k IH]; simpl; [reflexivity | rewrite IH; reflexivity]. Qed.

Lemma zfill_unsigned (width : nat) (s : string) :
  (forall c s', s = String c s' -> c <> "+"%char /\ c <> "-"%char) ->
  zfill width s
  = (string_of_list_ascii (repeat "0"%char (width - String.length s)) ++ s)%string.
Proof.
  intros Hs. unfold zfill. destruct s as [| c s'].
  - induction (width - String.length "") as [| n IH]; simpl;
      [reflexivity | rewrite <- IH; reflexivity].
  - destruct (Hs c s' eq_refl) as (Hp & Hm).
    destruct (Ascii.eqb_spec c "+"); [contradiction |].
    destruct (Ascii.eqb_spec c "-"); [contradiction |]. reflexivity.
Qed.

Lemma zfill_leading_zeros (width k : nat) (s : string) :
  k + String.length s <= width ->
  (forall c s', s = String c s' -> c <> "+"%char /\ c <> "-"%char) ->
  zfill width (string_of_list_ascii (repeat "0"%char k) ++ s)%string
  = zfill width s.
Proof.
  intros Hk Hs. rewrite (zfill_unsigned width s Hs).
  rewrite zfill_unsigned.
  - rewrite string_length_append, zeros_length, <- string_append_assoc,
      <- zeros_plus.
    do 3 f_equal. lia.
  - intros c s' E. destruct k as [| k].
    + simpl in E. exact (Hs c s' E).
    + simpl in E. injection E as <- _. split; discriminate.
Qed.

Section Names.

Context `{Collaborators}.

(** X20.  The files of an orbit are named by its number padded with
    zeros to seven characters, so numbers that differ by leading zeros
    only, and fit in seven characters, name the same aligned-track file and
    the same statistics files; a number of seven characters or more is used
    as it is. *)
Theorem file_names_pad_orbit (k : nat) (s cwd : string) :
  (forall c s', s = String c s' -> c <> "+"%char /\ c <> "-"%char) ->
  let padded := (string_of_list_ascii (repeat "0"%char k) ++ s)%string in
  (k + String.length s <= 7 ->
   srf_file padded = srf_file s /\ rsr_file cwd padded = rsr_file cwd s) /\
  (7 <= String.length s ->
   srf_file s = (Params.srf_path ++ s ++ ".srf.txt")%string).
Proof.
  intros Hs padded. split.
  - intros Hk. unfold srf_file, rsr_file, padded.
    rewrite (zfill_leading_zeros 7 k s Hk Hs). split; reflexivity.
  - intros Hl. unfold srf_file. rewrite (zfill_unsigned 7 s Hs).
    replace (7 - String.length s) with 0 by lia. reflexivity.
Qed.

End Names.

(* ===================================================================== *)
(** * The further theorems at the example orbit *)
(* ===================================================================== *)

Import Covered.

Lemma covered_rpb (g : npfloat) :
  read_rpb orbit_id (world_full g) = (world_full g, Ok waveform).
Proof. reflexivity. Qed.

Lemma covered_pik (g : npfloat) :
  read_pik orbit_id (world_full g) = (world_full g, Ok ([pick0] ++ pick_wrap :: [])).
Proof. reflexivity. Qed.

Lemma covered_pick_col : pick_col 2 pick_wrap = Ok 1.
Proof. reflexivity. Qed.

Lemma covered_pick_val : pick_val waveform pick_wrap = Fin 1.
Proof.
  rewrite (pick_val_window waveform pick_wrap 1 covered_pick_col).
  replace (pick_z pick_wrap) with 3599%Z by (vm_compute; reflexivity).
  change (shape0 waveform) with 3600.
  rewrite slice_overrun by lia.
  change (Z.to_nat (Z.of_nat 3600 + 2 - 3599)) with 3.
  cbn [seq samples map amax fold_left].
  rewrite !fixture_cell by (unfold rows; lia).
  rewrite !fmax_same. reflexivity.
Qed.

Lemma covered_get_pik (g : npfloat) :
  get_pik orbit_id (world_full g) = (world_full_pik g, Ok 0).
Proof.
  rewrite (get_pik_unfold _ _ _ _ (covered_pik g) (covered_rpb g)).
  assert (E : setitem_list (fresh_block (world_full g) (shape1 waveform))
                (pik_x ([pick0] ++ pick_wrap :: []))
                (pik_echo waveform ([pick0] ++ pick_wrap :: []))
              = Ok [Fin 1; Fin 1]).
  { apply setitem_picks. exists [0; 1]. split.
    - repeat constructor.
    - cbn [app map zip_with]. rewrite fixture_pick_val, covered_pick_val.
      reflexivity. }
  rewrite E. reflexivity.
Qed.

Lemma fixture_inline_rsr (g : npfloat) :
  exists w' b,
    inline_rsr orbit_id (Fin 1000) (Fin 250) true (world0 g) = (w', Ok b).
Proof.
  rewrite inline_rsr_split, (bind_ok _ _ _ _ _ (fixture_get_srf g true)).
  destruct (@after_srf_returns collaborators orbit_id (Fin 1000) (Fin 250) true
              (world_srf g true) (track g) (mkDF 1 [("xo", [Fin 0])])
              (screen_amplitude (calibrated (echo g) [range0; range0]))
              [Fin 0] (fixture_track_amp g) eq_refl eq_refl eq_refl
              (fun name => get_srf_geometry _ _ _ _ _ name (fixture_get_srf g true))
              (fun _ _ => eq_refl)) as (w' & b & E & _).
  exists w', b. exact E.
Qed.

Lemma read_rpb_layout_witness :
  read_rpb orbit_id (world0 NaN) = (world0 NaN, Ok waveform) /\
  world0 NaN = world0 NaN /\ shape0 waveform = 3600 /\
  exists a,
    w_rpb (world0 NaN) orbit_id = Some a /\
    length a = shape1 waveform * 3600 /\
    (forall r c, r < 3600 -> c < shape1 waveform ->
       a !! (c * 3600 + r) = Some (cell waveform r c)) /\
    (forall k, k < length a ->
       k / 3600 < shape1 waveform /\
       a !! k = Some (cell waveform (k mod 3600) (k / 3600))).
Proof.
  split; [apply fixture_rpb |].
  apply (read_rpb_layout orbit_id (world0 NaN) (world0 NaN) waveform).
  apply fixture_rpb.
Defined.

Lemma read_pik_rows_witness :
  w_pik (world0 NaN) orbit_id = Some Fixture.pik_lines /\
  exists pik,
    read_pik orbit_id (world0 NaN) = (world0 NaN, Ok pik) /\
    map (fun p => (Raw.orbit p, frame p, x p, y p)) pik
    = [(inject_Z 887601, inject_Z 1, inject_Z 0, inject_Z 0)] /\
    length pik <= 2.
Proof.
  split; [reflexivity |].
  destruct (read_pik_rows orbit_id (world0 NaN) Fixture.pik_lines eq_refl)
    as (_ & Hrows).
  destruct Hrows as (pik & E & Hcols & Hlen & _); [simpl; lia |].
  exists pik. split; [exact E |]. split; [exact Hcols | exact Hlen].
Defined.

Lemma get_pik_frame_range_witness :
  read_pik orbit_id (world0 NaN) = (world0 NaN, Ok [pick0]) /\
  read_rpb orbit_id (world0 NaN) = (world0 NaN, Ok waveform) /\
  let in_range (p : pick) :=
    (- Z.of_nat (shape1 waveform) <= as_index (frame p - inject_Z 1)%Q
     < Z.of_nat (shape1 waveform))%Z in
  (Forall in_range [pick0] ->
   exists w' out, get_pik orbit_id (world0 NaN) = (w', Ok out)) /\
  (Exists (fun p => ~ in_range p) [pick0] ->
   snd (get_pik orbit_id (world0 NaN)) = Raise IndexError /\
   w_files (fst (get_pik orbit_id (world0 NaN))) = w_files (world0 NaN)).
Proof.
  split; [apply fixture_pik |]. split; [apply fixture_rpb |].
  apply (get_pik_frame_range orbit_id (world0 NaN) [pick0] waveform).
  - apply fixture_pik.
  - apply fixture_rpb.
Defined.

Lemma get_pik_frame_wraps_witness :
  frame pick_wrap = inject_Z 0 /\
  (1 - Z.of_nat (shape1 waveform) <= 0 <= 0)%Z /\
  pick_col (shape1 waveform) pick_wrap = Ok 1 /\
  (0%Z = 0%Z -> 1 = shape1 waveform - 1) /\
  exists a',
    w_heap (world_full_pik NaN) !! 0 = Some a' /\
    a' !! 1 = Some (pick_val waveform pick_wrap).
Proof.
  split; [reflexivity |]. split; [cbn; lia |].
  apply (get_pik_frame_wraps orbit_id (world_full NaN) (world_full_pik NaN) 0
           [pick0] [] pick_wrap waveform 0).
  - apply covered_get_pik.
  - apply covered_pik.
  - apply covered_rpb.
  - reflexivity.
  - cbn. lia.
  - intros p' [].
Defined.

Lemma get_pik_covered_ignores_memory_witness :
  (forall j, j < shape1 waveform ->
     exists p, In p ([pick0] ++ pick_wrap :: [])
               /\ pick_col (shape1 waveform) p = Ok j) /\
  exists a,
    w_heap (world_full_pik (Fin 0)) !! 0 = Some a /\
    w_heap (world_full_pik (Fin 1)) !! 0 = Some a /\
    length a = shape1 waveform.
Proof.
  assert (Hcov : forall j, j < shape1 waveform ->
            exists p, In p ([pick0] ++ pick_wrap :: [])
                      /\ pick_col (shape1 waveform) p = Ok j).
  { intros [| [| j]] Hj.
    - exists pick0. split; [left; reflexivity | reflexivity].
    - exists pick_wrap. split; [right; left; reflexivity | reflexivity].
    - cbn in Hj. lia. }
  split; [exact Hcov |].
  apply (get_pik_covered_ignores_memory orbit_id
           (world_full (Fin 0)) (world_full (Fin 1))
           (world_full_pik (Fin 0)) (world_full_pik (Fin 1)) 0 0
           ([pick0] ++ pick_wrap :: []) waveform).
  - apply covered_pik.
  - apply covered_pik.
  - apply covered_rpb.
  - apply covered_rpb.
  - apply covered_get_pik.
  - apply covered_get_pik.
  - exact Hcov.
Defined.

Lemma pick_val_is_window_max_witness :
  pick_col (shape1 waveform) pick0 = Ok 0 /\
  let win := samples waveform 0
               (slice (shape0 waveform) (pick_z pick0 - 2) (pick_z pick0 + 2)) in
  (win = [] -> pick_val waveform pick0 = NaN) /\
  (In NaN win -> pick_val waveform pick0 = NaN) /\
  (win <> [] -> Forall (fun u => u <> NaN) win ->
   In (pick_val waveform pick0) win /\
   Forall (fun u => fltb (pick_val waveform pick0) u = false) win).
Proof.
  split; [apply fixture_pick_col |].
  apply (pick_val_is_window_max waveform pick0 0).
  apply fixture_pick_col.
Defined.

Lemma calibration_broadcast_witness :
  w_heap world_zero !! 0 = Some [Fin 0; Fin 1] /\
  let res := snd (calibration 0 15 (Some (Array [range0; range0]))
                    Params.abs_calib world_zero) in
  (length [range0; range0] = length [Fin 0; Fin 1]
   \/ length [range0; range0] = 1 ->
   exists out, res = Ok out /\ length out = length [Fin 0; Fin 1]) /\
  (length [Fin 0; Fin 1] = 1 ->
   exists out, res = Ok out /\ length out = length [range0; range0]) /\
  (length [range0; range0] <> length [Fin 0; Fin 1] ->
   length [range0; range0] <> 1 -> length [Fin 0; Fin 1] <> 1 ->
   res = Raise ValueError).
Proof.
  split; [reflexivity |].
  apply (calibration_broadcast world_zero 0 [Fin 0; Fin 1] 15
           (Some (Array [range0; range0])) Params.abs_calib).
  reflexivity.
Defined.

Lemma get_srf_missing_echo_witness :
  get_srf orbit_id false (world0 (Fin 0))
  = (world_srf (Fin 0) false, Ok (track (Fin 0))) /\
  exists pik w2 a amp,
    get_pik orbit_id (world0 (Fin 0)) = (w2, Ok pik) /\
    w_heap w2 !! pik = Some a /\
    column (track (Fin 0)) "amp" = Ok amp /\
    length amp = length a /\
    forall i, a !! i = Some (Fin 0) \/ a !! i = Some NaN ->
              amp !! i = Some NaN.
Proof.
  split; [apply fixture_get_srf |].
  apply (get_srf_missing_echo orbit_id false (world0 (Fin 0))
           (world_srf (Fin 0) false) (track (Fin 0))).
  apply fixture_get_srf.
Defined.

Lemma get_srf_amplitude_range_witness :
  get_srf orbit_id true (world0 (Fin 1))
  = (world_srf (Fin 1) true, Ok (track (Fin 1))) /\
  exists amp,
    column (track (Fin 1)) "amp" = Ok amp /\
    forall i v, amp !! i = Some v ->
      v = NaN \/ exists y, v = Fin y /\ (/ 10 ^ 10 <= y <= sqrt 10)%R.
Proof.
  split; [apply fixture_get_srf |].
  apply (get_srf_amplitude_range orbit_id true (world0 (Fin 1))
           (world_srf (Fin 1) true) (track (Fin 1))).
  apply fixture_get_srf.
Defined.

Lemma get_aux_channels_witness :
  get_aux orbit_id (world0 NaN) = (world0 NaN, Ok resampled) /\
  exists tab rpb utc,
    w_aux (world0 NaN) orbit_id = Some tab /\
    read_rpb orbit_id (world0 NaN) = (world0 NaN, Ok rpb) /\
    column tab "UTC" = Ok utc /\
    forall out src, In (out, src) channels ->
      exists y t,
        column tab src = Ok y /\
        splrep (linspace 0 (INR (shape1 rpb) - 1) (length utc)) y = Ok t /\
        column resampled out = Ok (map (splev1 t) (arange (shape1 rpb))).
Proof.
  split; [apply fixture_aux |].
  apply (get_aux_channels orbit_id (world0 NaN) (world0 NaN) resampled).
  apply fixture_aux.
Defined.

Lemma get_aux_range_witness :
  get_aux orbit_id (world0 PInf) = (world0 PInf, Ok resampled) /\
  exists lon lat radius rng,
    column resampled "lon" = Ok lon /\
    column resampled "lat" = Ok lat /\
    column resampled "radius" = Ok radius /\
    column resampled "rng" = Ok rng /\
    length rng = df_len resampled /\
    (forall i lo la ra,
       lon !! i = Some lo -> lat !! i = Some la -> radius !! i = Some ra ->
       rng !! i
       = Some (fsub (fmul ra (Fin 1000)) (lonlat2rad1 lo la mars_radius))) /\
    map fst (df_cols resampled)
    = ["HGAin"; "HGAout"; "lat"; "lon"; "mag"; "pitch"; "radius"; "rng";
       "roll"; "sun_dist"; "sza"; "vrad"; "vtan"; "yaw"].
Proof.
  split; [apply fixture_aux |].
  apply (get_aux_range orbit_id (world0 PInf) (world0 PInf) resampled).
  apply fixture_aux.
Defined.

Lemma linspace_abscissae_witness :
  2 <= 4 /\
  length (linspace 0 (INR 2 - 1) 4) = 4 /\
  linspace 0 (INR 2 - 1) 4 !! 0 = Some (Fin 0) /\
  linspace 0 (INR 2 - 1) 4 !! (4 - 1) = Some (Fin (INR 2 - 1)).
Proof.
  split; [lia |].
  pose proof (linspace_abscissae 2 4 ltac:(lia)) as P. cbv zeta in P.
  destruct P as (P1 & P2 & P3 & _). repeat split; assumption.
Defined.

Lemma inline_rsr_table_witness :
  exists w' b,
    inline_rsr orbit_id (Fin 1000) (Fin 250) true (world0 (Fin 1)) = (w', Ok b) /\
    exists srf w1 amp b0 xo,
      get_srf orbit_id true (world0 (Fin 1)) = (w1, Ok srf) /\
      column srf "amp" = Ok amp /\
      inline_estim amp Params.frq (Fin 1000) (Fin 250) = Ok b0 /\
      column b0 "xo" = Ok xo /\
      df_len b = df_len b0 /\
      length xo = df_len b0 /\
      (forall name, In name ["lat"; "lon"; "roll"; "rng"; "sza"] ->
         exists c, column b name = Ok c /\ length c = length xo) /\
      (forall name, ~ In name ["lat"; "lon"; "roll"; "rng"; "sza"] ->
         column b name = column b0 name).
Proof.
  destruct (fixture_inline_rsr (Fin 1)) as (w' & b & E).
  exists w', b. split; [exact E |].
  apply (inline_rsr_table orbit_id (Fin 1000) (Fin 250) true (world0 (Fin 1)) w' b).
  exact E.
Defined.

Lemma file_names_pad_orbit_witness :
  srf_file "0887601" = srf_file "887601" /\
  rsr_file "/data" "0887601" = rsr_file "/data" "887601".
Proof.
  apply (file_names_pad_orbit 1 "887601" "/data").
  - intros c s' E. injection E as <- _. split; discriminate.
  - simpl. lia.
Defined.
